(** * loads: workload plan, result sink, local scheduler and coordinator

    A shallow embedding of [loads/runner.py] and [loads/test_result.py].
    Python integers are unbounded, so they are [Z]; a [dict] is a [gmap];
    an exception is the [Raise] branch of [result]; a [float] is the
    rational it denotes ([Q]), and what the code computes on floats is
    rounded to binary64 by [nearest]. *)

From Stdlib Require Import ZArith QArith String Ascii List Lia.
From stdpp Require Import gmap strings list fin_maps.

Open Scope Z_scope.

(** ** Python values that may raise *)

Inductive exn :=
  TypeError | ValueError | ZeroDivisionError | OverflowError | IndexError.

Inductive result (A : Type) :=
| Ok (a : A)
| Raise (e : exn).
Arguments Ok {A} a.
Arguments Raise {A} e.

(** Sequencing: an exception skips the rest, as in Python. *)
#[global] Instance result_bind : MBind result := fun A B k r =>
  match r with
  | Ok a => k a
  | Raise e => Raise e
  end.

#[global] Instance result_ret : MRet result := fun A a => Ok a.

(** A list comprehension whose body may raise: the first failure wins. *)
Fixpoint comprehension {A B} (f : A -> result B) (l : list A) : result (list B) :=
  match l with
  | [] => Ok []
  | a :: l' => b ← f a; bs ← comprehension f l'; Ok (b :: bs)
  end.

Definition raises {A} (r : result A) : Prop := exists e, r = Raise e.

(** [sum] over a list of integers, left to right from 0 as the builtin. *)
Definition sum (l : list Z) : Z := fold_left Z.add l 0.

(** [range(n)]: empty when [n <= 0]. *)
Definition range (n : Z) : list Z := map Z.of_nat (seq 0 (Z.to_nat n)).

(** ** [str.split] and [int] on strings *)

Fixpoint split (sep : ascii) (s : string) : list string :=
  match s with
  | EmptyString => [EmptyString]
  | String c s' =>
      if Ascii.eqb c sep then EmptyString :: split sep s'
      else match split sep s' with
           | w :: ws => String c w :: ws
           | [] => [String c EmptyString]
           end
  end.

Definition is_space (c : ascii) : bool :=
  let n := Z.of_N (N_of_ascii c) in
  (n =? 32) || ((9 <=? n) && (n <=? 13)).

Definition digit_of (c : ascii) : option Z :=
  let n := Z.of_N (N_of_ascii c) in
  if (48 <=? n) && (n <=? 57) then Some (n - 48) else None.

Fixpoint lstrip (s : string) : string :=
  match s with
  | String c s' => if is_space c then lstrip s' else s
  | EmptyString => EmptyString
  end.

Fixpoint all_space (s : string) : bool :=
  match s with
  | String c s' => is_space c && all_space s'
  | EmptyString => true
  end.

(** Digits after the first one; only white space may follow them. *)
Fixpoint digits_from (acc : Z) (s : string) : option Z :=
  match s with
  | EmptyString => Some acc
  | String c s' =>
      match digit_of c with
      | Some d => digits_from (10 * acc + d) s'
      | None => if all_space s then Some acc else None
      end
  end.

Definition unsigned_int (s : string) : option Z :=
  match s with
  | String c s' =>
      match digit_of c with
      | Some d => digits_from d s'
      | None => None
      end
  | EmptyString => None
  end.

(** [int(s)] in base 10: white space, an optional sign, at least one
    digit, white space; anything else is a [ValueError]. *)
Definition int (s : string) : result Z :=
  let s1 := lstrip s in
  let r := match s1 with
           | String c s' =>
               if Ascii.eqb c "-" then Z.opp <$> unsigned_int s'
               else if Ascii.eqb c "+" then unsigned_int s'
               else unsigned_int s1
           | EmptyString => None
           end in
  match r with
  | Some z => Ok z
  | None => Raise ValueError
  end.

(** ** runner.py: the workload plan *)

Module Workload.

(** The entries of the [args] dict that [_compute] reads. *)
Record Args := {
  users : string;
  cycles : string;
  agents : option Z
}.

(** [[int(x) for x in s.split(':')]] *)
Definition int_list (s : string) : result (list Z) :=
  comprehension int (split ":" s).

Definition _compute (args : Args)
  : result (Z * list Z * list Z * option Z) :=
  users ← int_list args.(users);
  cycles ← int_list args.(cycles);
  let agents := args.(agents) in
  let total :=
    fold_left
      (fun total user => total + sum (map (fun cycle => cycle * user) cycles))
      users 0 in
  let total := match agents with
               | Some a => total * a
               | None => total
               end in
  Ok (total, cycles, users, agents).

(** The count as the specification words it: the agent count, 1 when
    there is none, times the sum over the tiers [u] of [u] times the sum
    of the cycle sizes. *)
Definition expected_total (us cs : list Z) (a : option Z) : Z :=
  default 1 a * sum (map (fun u => u * sum cs) us).

End Workload.

(** ** datetime and timedelta *)

(** A naive [datetime]: microseconds since an epoch. *)
Definition datetime := Z.

(** A [timedelta] in its normal form: [0 <= seconds < 86400] and
    [0 <= microseconds < 10^6], the sign carried by [days]. *)
Record timedelta := {
  days : Z;
  seconds : Z;
  microseconds : Z
}.

Definition us_per_second : Z := 1000000.
Definition us_per_day : Z := 86400 * us_per_second.

Definition normalize (us : Z) : timedelta :=
  {| days := us / us_per_day;
     seconds := (us mod us_per_day) / us_per_second;
     microseconds := us mod us_per_second |}.

(** [timedelta(d)]: one positional argument is a number of days; a
    magnitude above 999999999 days is an [OverflowError]. *)
Definition timedelta_of_days (d : Z) : result timedelta :=
  if (-999999999 <=? d) && (d <=? 999999999)
  then Ok (normalize (d * us_per_day))
  else Raise OverflowError.

(** [a - b] on datetimes. *)
Definition datetime_sub (a b : datetime) : timedelta := normalize (a - b).

(** ** Floats

    [nearest q] is the binary64 number nearest to [q], ties going to the
    even significand: 53 bits of significand, and no place below
    2^-1074. Overflow to infinity is left out; nothing here comes near
    2^1024. *)
Definition round_half_even (n d : Z) : Z :=
  let m := n / d in
  match 2 * (n mod d) ?= d with
  | Lt => m
  | Gt => m + 1
  | Eq => if Z.even m then m else m + 1
  end.

Definition pow2 (e : Z) : Z := 2 ^ Z.max 0 e.

Definition nearest (q : Q) : Q :=
  let q := Qred q in
  let n := Z.abs (Qnum q) in
  let d := Z.pos (Qden q) in
  if n =? 0 then 0%Q
  else
    let l := Z.log2 n - Z.log2 d in
    let l := if n * pow2 (- l) <? d * pow2 l then l - 1 else l in
    let e := Z.max (l - 52) (-1074) in
    let m := round_half_even (n * pow2 (- e)) (d * pow2 e) in
    Qred (Z.sgn (Qnum q) * m * pow2 e # Z.to_pos (pow2 (- e))).

(** [x + y] on floats. *)
Definition float_add (x y : Q) : Q := nearest (x + y).

(** [float(n)] *)
Definition float_of_int (n : Z) : Q := nearest (inject_Z n).

(** [x / n] for a float [x] and an integer [n]: the integer becomes a
    float, which is 0.0 for 0 only, and the quotient is rounded. *)
Definition float_div (x : Q) (n : Z) : result Q :=
  if n =? 0 then Raise ZeroDivisionError
  else Ok (nearest (x / float_of_int n)).

(** [sum] over floats: left to right from the integer 0, one rounding
    per addition, as the builtin of Python 2 adds (the code is Python 2:
    [test.im_class]). *)
Definition float_sum (l : list Q) : Q := fold_left float_add l 0%Q.

(** [td.total_seconds()], as the exact quotient: the float the call
    returns is [nearest] of it. *)
Definition total_seconds (td : timedelta) : Q :=
  (inject_Z ((td.(days) * 86400 + td.(seconds)) * us_per_second
             + td.(microseconds))
   / inject_Z us_per_second)%Q.

(** [float(a) / b] for integers [a] and [b], as the exact quotient: the
    float the division returns is [nearest] of it. *)
Definition true_div (a b : Q) : result Q :=
  if Qeq_bool b 0 then Raise ZeroDivisionError else Ok (a / b)%Q.

(** [sum] over a list that may hold [None]: [0 + None] is a [TypeError]. *)
Fixpoint sum_from (acc : Z) (l : list (option Z)) : result Z :=
  match l with
  | [] => Ok acc
  | Some d :: l' => sum_from (acc + d) l'
  | None :: _ => Raise TypeError
  end.

(** The same over floats: [sum] of a list of rates that may hold [None].
    Each rate comes in as the exact quotient its float is nearest to. *)
Fixpoint float_sum_from (acc : Q) (l : list (option Q)) : result Q :=
  match l with
  | [] => Ok acc
  | Some q :: l' => float_sum_from (float_add acc (nearest q)) l'
  | None :: _ => Raise TypeError
  end.

(** ** test_result.py *)

(** The tuple [(cycle, user, current_cycle, current_user)]; each entry
    is an integer or [None]. *)
Definition loads_status := (option Z * option Z * option Z * option Z)%type.

Module Hit.

(** The [elapsed] argument: already a [timedelta], or a plain integer. *)
Inductive elapsed_arg :=
| Delta (td : timedelta)
| Number (n : Z).

Record t := {
  url : string;
  method : string;
  status : Z;
  started : datetime;
  elapsed : timedelta;
  cycle : option Z;
  user : option Z;
  current_cycle : option Z;
  current_user : option Z;
  worker_id : option Z
}.

(** [Hit.__init__]; [loads_status] may be [None]. *)
Definition __init__ (url method : string) (status : Z) (started : datetime)
    (elapsed : elapsed_arg) (loads_status : option loads_status)
    (worker_id : option Z) : result t :=
  elapsed ← match elapsed with
            | Delta td => Ok td
            | Number n => timedelta_of_days n
            end;
  let loads_status := default (None, None, None, None) loads_status in
  let '(cycle, user, current_cycle, current_user) := loads_status in
  Ok {| url := url; method := method; status := status;
        started := started; elapsed := elapsed;
        cycle := cycle; user := user;
        current_cycle := current_cycle; current_user := current_user;
        worker_id := worker_id |}.

(** The keyword arguments [data] of [add_hit]: [None] is a key that is
    not in the dict. [worker_id] has a default, so a missing key and
    [None] are the same call. *)
Record kwargs := {
  kw_url : option string;
  kw_method : option string;
  kw_status : option Z;
  kw_started : option datetime;
  kw_elapsed : option elapsed_arg;
  kw_loads_status : option (option loads_status);
  kw_worker_id : option Z
}.

(** [Hit] called with the keyword arguments: a required parameter
    without a value is a [TypeError]. *)
Definition new (data : kwargs) : result t :=
  match data.(kw_url), data.(kw_method), data.(kw_status),
        data.(kw_started), data.(kw_elapsed), data.(kw_loads_status) with
  | Some url, Some method, Some status, Some started, Some elapsed,
    Some loads_status =>
      __init__ url method status started elapsed loads_status
               data.(kw_worker_id)
  | _, _, _, _, _, _ => Raise TypeError
  end.

End Hit.

Definition exc_info := string.

Module Test.

(** [user] is first assigned by [startTest]; before that it reads as
    [None] here. *)
Record t := {
  start : datetime;
  end_ : option datetime;
  name : option string;
  cycle : option Z;
  current_cycle : option Z;
  failures : list exc_info;
  errors : list exc_info;
  success : Z;
  user : option Z
}.

(** [Test()] as the [defaultdict] calls it: [start] is the clock. *)
Definition __init__ (now : datetime) : t :=
  {| start := now; end_ := None; name := None; cycle := None;
     current_cycle := None; failures := []; errors := []; success := 0;
     user := None |}.

(** [bool(self.start and self.end)]: a datetime is always true. *)
Definition finished (self : t) : bool :=
  match self.(end_) with
  | Some _ => true
  | None => false
  end.

Definition duration (self : t) : option Z :=
  match self.(end_) with
  | Some e => Some (datetime_sub e self.(start)).(seconds)
  | None => None
  end.

(** The outcomes recorded in the bucket. *)
Definition outcomes (self : t) : Z :=
  self.(success) + Z.of_nat (length self.(failures))
  + Z.of_nat (length self.(errors)).

(** [None] is the implicit return when nothing was recorded. *)
Definition success_rate (self : t) : option Q :=
  let total := self.(success) + Z.of_nat (length self.(failures))
               + Z.of_nat (length self.(errors)) in
  if total =? 0 then None
  else Some (inject_Z self.(success) / inject_Z total)%Q.

(** The first encountered error, [None] when there is none. *)
Definition get_error (self : t) : option exc_info :=
  match self.(errors) with
  | [] => None
  | e :: _ => Some e
  end.

Definition get_failure (self : t) : option exc_info :=
  match self.(failures) with
  | [] => None
  | e :: _ => Some e
  end.

End Test.

Module TestResult.

(** The key of a bucket: [(test, current_user, current_cycle, worker_id)]. *)
Definition key := (string * option Z * option Z * option Z)%type.

(** An observer is an object outside this code; only its identity and
    the calls of its [push] are modelled. *)
Definition observer := nat.

Record t := {
  hits : list Hit.t;
  tests : gmap key Test.t;
  sockets : Z;
  socket_data_received : Z;
  start_time : option datetime;
  stop_time : option datetime;
  observers : list observer
}.

Definition __init__ : t :=
  {| hits := []; tests := ∅; sockets := 0; socket_data_received := 0;
     start_time := None; stop_time := None; observers := [] |}.

(** A method looked up on the sink and called with its arguments. *)
Inductive call :=
| StartTestRun (worker_id : option Z)
| StopTestRun (worker_id : option Z)
| StartTest (test : string) (status : loads_status) (worker_id : option Z)
| StopTest (test : string) (status : loads_status) (worker_id : option Z)
| AddError (test : string) (exc : exc_info) (status : loads_status)
    (worker_id : option Z)
| AddFailure (test : string) (exc : exc_info) (status : loads_status)
    (worker_id : option Z)
| AddSuccess (test : string) (status : loads_status) (worker_id : option Z)
| AddHit (data : Hit.kwargs)
| SocketOpen (status : loads_status) (worker_id : option Z)
| SocketClose (status : loads_status) (worker_id : option Z)
| SocketMessage (status : loads_status) (size : Z) (worker_id : option Z).

(** What lies outside the sink: the clock, read by [datetime.utcnow()]
    ([clock n] is the n-th reading), and the pushes the observers have
    received, oldest first. *)
Record World := {
  clock : nat -> datetime;
  tick : nat;
  pushed : list (observer * call)
}.

Definition utcnow (w : World) : datetime * World :=
  (w.(clock) w.(tick),
   {| clock := w.(clock); tick := S w.(tick); pushed := w.(pushed) |}).

(** [obs.push(name, *args, **kwargs)] *)
Definition push (c : call) (w : World) (obs : observer) : World :=
  {| clock := w.(clock); tick := w.(tick);
     pushed := w.(pushed) ++ [(obs, c)] |}.

Definition set_tests (m : gmap key Test.t) (self : t) : t :=
  {| hits := self.(hits); tests := m; sockets := self.(sockets);
     socket_data_received := self.(socket_data_received);
     start_time := self.(start_time); stop_time := self.(stop_time);
     observers := self.(observers) |}.

(** [self.tests[k]] on the [defaultdict(Test)]: a missing bucket is
    made, which reads the clock. *)
Definition tests_getitem (k : key) (self : t) (w : World)
  : Test.t * t * World :=
  match self.(tests) !! k with
  | Some ob => (ob, self, w)
  | None =>
      let '(now, w) := utcnow w in
      let ob := Test.__init__ now in
      (ob, set_tests (<[k := ob]> self.(tests)) self, w)
  end.

(** The bucket is an object shared with the dict: a write to one of its
    attributes is a write to the dict's entry. *)
Definition store (k : key) (ob : Test.t) (self : t) : t :=
  set_tests (<[k := ob]> self.(tests)) self.

Definition key_of (test : string) (status : loads_status)
    (worker_id : option Z) : key :=
  let '(cycle, user, current_cycle, current_user) := status in
  (test, current_user, current_cycle, worker_id).

Definition _get_test (test : string) (status : loads_status)
    (worker_id : option Z) (self : t) (w : World) : Test.t * t * World :=
  tests_getitem (key_of test status worker_id) self w.

Definition startTestRun (worker_id : option Z) (self : t) (w : World)
  : t * World :=
  let '(now, w) := utcnow w in
  ({| hits := self.(hits); tests := self.(tests); sockets := self.(sockets);
      socket_data_received := self.(socket_data_received);
      start_time := Some now; stop_time := self.(stop_time);
      observers := self.(observers) |}, w).

Definition stopTestRun (worker_id : option Z) (self : t) (w : World)
  : t * World :=
  let '(now, w) := utcnow w in
  ({| hits := self.(hits); tests := self.(tests); sockets := self.(sockets);
      socket_data_received := self.(socket_data_received);
      start_time := self.(start_time); stop_time := Some now;
      observers := self.(observers) |}, w).

Definition startTest (test : string) (status : loads_status)
    (worker_id : option Z) (self : t) (w : World) : t * World :=
  let '(cycle, user, current_cycle, current_user) := status in
  let k := (test, current_user, current_cycle, worker_id) in
  let '(ob, self, w) := tests_getitem k self w in
  let ob :=
    {| Test.start := ob.(Test.start); Test.end_ := ob.(Test.end_);
       Test.name := Some test; Test.cycle := ob.(Test.cycle);
       Test.current_cycle := current_cycle;
       Test.failures := ob.(Test.failures); Test.errors := ob.(Test.errors);
       Test.success := ob.(Test.success); Test.user := user |} in
  (store k ob self, w).

Definition stopTest (test : string) (status : loads_status)
    (worker_id : option Z) (self : t) (w : World) : t * World :=
  let '(ob, self, w) := _get_test test status worker_id self w in
  let '(now, w) := utcnow w in
  let ob :=
    {| Test.start := ob.(Test.start); Test.end_ := Some now;
       Test.name := ob.(Test.name); Test.cycle := ob.(Test.cycle);
       Test.current_cycle := ob.(Test.current_cycle);
       Test.failures := ob.(Test.failures); Test.errors := ob.(Test.errors);
       Test.success := ob.(Test.success); Test.user := ob.(Test.user) |} in
  (store (key_of test status worker_id) ob self, w).

Definition addError (test : string) (exc : exc_info) (status : loads_status)
    (worker_id : option Z) (self : t) (w : World) : t * World :=
  let '(ob, self, w) := _get_test test status worker_id self w in
  let ob :=
    {| Test.start := ob.(Test.start); Test.end_ := ob.(Test.end_);
       Test.name := ob.(Test.name); Test.cycle := ob.(Test.cycle);
       Test.current_cycle := ob.(Test.current_cycle);
       Test.failures := ob.(Test.failures);
       Test.errors := ob.(Test.errors) ++ [exc];
       Test.success := ob.(Test.success); Test.user := ob.(Test.user) |} in
  (store (key_of test status worker_id) ob self, w).

Definition addFailure (test : string) (exc : exc_info)
    (status : loads_status) (worker_id : option Z) (self : t) (w : World)
  : t * World :=
  let '(ob, self, w) := _get_test test status worker_id self w in
  let ob :=
    {| Test.start := ob.(Test.start); Test.end_ := ob.(Test.end_);
       Test.name := ob.(Test.name); Test.cycle := ob.(Test.cycle);
       Test.current_cycle := ob.(Test.current_cycle);
       Test.failures := ob.(Test.failures) ++ [exc];
       Test.errors := ob.(Test.errors);
       Test.success := ob.(Test.success); Test.user := ob.(Test.user) |} in
  (store (key_of test status worker_id) ob self, w).

Definition addSuccess (test : string) (status : loads_status)
    (worker_id : option Z) (self : t) (w : World) : t * World :=
  let '(ob, self, w) := _get_test test status worker_id self w in
  let ob :=
    {| Test.start := ob.(Test.start); Test.end_ := ob.(Test.end_);
       Test.name := ob.(Test.name); Test.cycle := ob.(Test.cycle);
       Test.current_cycle := ob.(Test.current_cycle);
       Test.failures := ob.(Test.failures); Test.errors := ob.(Test.errors);
       Test.success := ob.(Test.success) + 1;
       Test.user := ob.(Test.user) |} in
  (store (key_of test status worker_id) ob self, w).

Definition add_hit (data : Hit.kwargs) (self : t) (w : World)
  : result (t * World) :=
  hit ← Hit.new data;
  Ok ({| hits := self.(hits) ++ [hit]; tests := self.(tests);
         sockets := self.(sockets);
         socket_data_received := self.(socket_data_received);
         start_time := self.(start_time); stop_time := self.(stop_time);
         observers := self.(observers) |}, w).

Definition socket_open (status : loads_status) (worker_id : option Z)
    (self : t) (w : World) : t * World :=
  ({| hits := self.(hits); tests := self.(tests);
      sockets := self.(sockets) + 1;
      socket_data_received := self.(socket_data_received);
      start_time := self.(start_time); stop_time := self.(stop_time);
      observers := self.(observers) |}, w).

Definition socket_close (status : loads_status) (worker_id : option Z)
    (self : t) (w : World) : t * World :=
  ({| hits := self.(hits); tests := self.(tests);
      sockets := self.(sockets) - 1;
      socket_data_received := self.(socket_data_received);
      start_time := self.(start_time); stop_time := self.(stop_time);
      observers := self.(observers) |}, w).

Definition socket_message (status : loads_status) (size : Z)
    (worker_id : option Z) (self : t) (w : World) : t * World :=
  ({| hits := self.(hits); tests := self.(tests);
      sockets := self.(sockets);
      socket_data_received := self.(socket_data_received) + size;
      start_time := self.(start_time); stop_time := self.(stop_time);
      observers := self.(observers) |}, w).

Definition add_observer (obs : observer) (self : t) : t :=
  {| hits := self.(hits); tests := self.(tests); sockets := self.(sockets);
     socket_data_received := self.(socket_data_received);
     start_time := self.(start_time); stop_time := self.(stop_time);
     observers := self.(observers) ++ [obs] |}.

(** The attribute name of a call. *)
Definition name_of (c : call) : string :=
  match c with
  | StartTestRun _ => "startTestRun"
  | StopTestRun _ => "stopTestRun"
  | StartTest _ _ _ => "startTest"
  | StopTest _ _ _ => "stopTest"
  | AddError _ _ _ _ => "addError"
  | AddFailure _ _ _ _ => "addFailure"
  | AddSuccess _ _ _ => "addSuccess"
  | AddHit _ => "add_hit"
  | SocketOpen _ _ => "socket_open"
  | SocketClose _ _ => "socket_close"
  | SocketMessage _ _ _ => "socket_message"
  end.

(** The call of [object.__getattribute__(self, name)] on the arguments. *)
Definition attr (c : call) (self : t) (w : World) : result (t * World) :=
  match c with
  | StartTestRun wid => Ok (startTestRun wid self w)
  | StopTestRun wid => Ok (stopTestRun wid self w)
  | StartTest test st wid => Ok (startTest test st wid self w)
  | StopTest test st wid => Ok (stopTest test st wid self w)
  | AddError test exc st wid => Ok (addError test exc st wid self w)
  | AddFailure test exc st wid => Ok (addFailure test exc st wid self w)
  | AddSuccess test st wid => Ok (addSuccess test st wid self w)
  | AddHit data => add_hit data self w
  | SocketOpen st wid => Ok (socket_open st wid self w)
  | SocketClose st wid => Ok (socket_close st wid self w)
  | SocketMessage st size wid => Ok (socket_message st size wid self w)
  end.

(** The tuple of names in [__getattribute__]. *)
Definition wrapped_names : list string :=
  ["startTestRun"; "stopTestRun"; "startTest"; "stopTest";
   "addError"; "addFailure"; "addSuccess"; "add_hit";
   "socket_open"; "socket_message"]%string.

(** [__getattribute__] followed by the call of what it returns: the
    method runs, and for a name of the tuple every observer is then
    pushed the call, in the order of [self.observers]. A method that
    raises has changed nothing and no observer is pushed. *)
Definition __getattribute__ (c : call) (self : t) (w : World)
  : result (t * World) :=
  if bool_decide (name_of c ∈ wrapped_names) then
    '(self', w') ← attr c self w;
    Ok (self', fold_left (push c) self'.(observers) w')
  else attr c self w.

(** A sequence of calls on the sink; the first exception ends it. *)
Fixpoint replay (cs : list call) (self : t) (w : World)
  : result (t * World) :=
  match cs with
  | [] => Ok (self, w)
  | c :: cs' => '(self', w') ← __getattribute__ c self w; replay cs' self' w'
  end.

(** *** Read queries *)

Definition hit_filter (url : option string) (cycle : option Z)
    (hit : Hit.t) : bool :=
  if match cycle with
     | Some c => bool_decide (hit.(Hit.current_cycle) ≠ Some c)
     | None => false
     end then false
  else if match url with
          | Some u => bool_decide (hit.(Hit.url) ≠ u)
          | None => false
          end then false
  else true.

Definition _get_hits (url : option string) (cycle : option Z) (self : t)
  : list Hit.t :=
  List.filter (hit_filter url cycle) self.(hits).

Definition test_filter (name : option string) (cycle : option Z)
    (finished : option bool) (test : Test.t) : bool :=
  if match name with
     | Some n => bool_decide (test.(Test.name) ≠ Some n)
     | None => false
     end then false
  else if match cycle with
          | Some c => bool_decide (test.(Test.current_cycle) ≠ Some c)
          | None => false
          end then false
  else if match finished with
          | Some f => bool_decide (Test.finished test ≠ f)
          | None => false
          end then false
  else true.

(** [self.tests.values()], in the order the dict gives them. *)
Definition values (self : t) : list Test.t :=
  (map_to_list self.(tests)).*2.

Definition _get_tests (name : option string) (cycle : option Z)
    (finished : option bool) (self : t) : list Test.t :=
  List.filter (test_filter name cycle finished) (values self).

Definition nb_tests (self : t) : Z := Z.of_nat (size self.(tests)).

Definition nb_finished_tests (self : t) : Z :=
  Z.of_nat (length (_get_tests None None (Some true) self)).

Definition nb_failures (self : t) : Z :=
  sum (map (fun t => Z.of_nat (length t.(Test.failures)))
           (_get_tests None None None self)).

Definition nb_errors (self : t) : Z :=
  sum (map (fun t => Z.of_nat (length t.(Test.errors)))
           (_get_tests None None None self)).

Definition nb_success (self : t) : Z :=
  sum (map Test.success (_get_tests None None None self)).

(** [end - self.start_time] when [self.start_time] may still be [None]. *)
Definition since_start (end_ : option datetime) (self : t)
  : result timedelta :=
  match end_, self.(start_time) with
  | Some e, Some s => Ok (datetime_sub e s)
  | _, _ => Raise TypeError
  end.

(** The [duration] property: [stop_time or utcnow()]. *)
Definition duration (self : t) (w : World) : result (Z * World) :=
  let '(end_, w) := match self.(stop_time) with
                    | Some e => (e, w)
                    | None => utcnow w
                    end in
  d ← since_start (Some end_) self;
  Ok (d.(seconds), w).

Definition average_request_time (url : option string) (cycle : option Z)
    (self : t) : result Q :=
  let elapsed := map (fun h => nearest (total_seconds h.(Hit.elapsed)))
                     (_get_hits url cycle self) in
  match elapsed with
  | _ :: _ => float_div (float_sum elapsed) (Z.of_nat (length elapsed))
  | [] => Ok 0%Q
  end.

Definition tests_per_second (self : t) : result Q :=
  d ← since_start self.(stop_time) self;
  true_div (inject_Z (nb_tests self)) (inject_Z d.(seconds)).

(** [None] is the implicit return when there is no duration. *)
Definition average_test_duration (test : option string) (cycle : option Z)
    (self : t) : result (option Q) :=
  let durations := map Test.duration (_get_tests test cycle None self) in
  match durations with
  | _ :: _ =>
      s ← sum_from 0 durations;
      q ← true_div (inject_Z s) (inject_Z (Z.of_nat (length durations)));
      Ok (Some q)
  | [] => Ok None
  end.

(** [url] and [cycle] are parameters the body does not read. *)
Definition requests_per_second (url : option string) (cycle : option Z)
    (self : t) (w : World) : result (Q * World) :=
  '(d, w) ← duration self w;
  q ← true_div (inject_Z (Z.of_nat (length self.(hits)))) (inject_Z d);
  Ok (q, w).

Definition nb_hits (self : t) : Z := Z.of_nat (length self.(hits)).

(** The URLs that had been called, as a set. *)
Definition urls (self : t) : gset string :=
  list_to_set (map Hit.url self.(hits)).

Definition hits_success_rate (url : option string) (cycle : option Z)
    (self : t) : result Q :=
  let hits := _get_hits url cycle self in
  let success :=
    List.filter (fun h => (200 <=? h.(Hit.status)) && (h.(Hit.status) <? 400))
                hits in
  match hits with
  | _ :: _ => true_div (inject_Z (Z.of_nat (length success)))
                       (inject_Z (Z.of_nat (length hits)))
  | [] => Ok 0%Q
  end.

Definition test_success_rate (test : option string) (cycle : option Z)
    (self : t) : result (option Q) :=
  let rates := map Test.success_rate (_get_tests test cycle None self) in
  match rates with
  | _ :: _ =>
      s ← float_sum_from 0 rates;
      q ← float_div s (Z.of_nat (length rates));
      Ok (Some q)
  | [] => Ok None
  end.

End TestResult.

(** ** runner.py: the local run

    [gevent] runs greenlets one at a time. A greenlet runs until it
    switches to the hub. [gevent.sleep(0)] is such a switch, and puts the
    greenlet at the back of the hub's queue of ready greenlets. After
    [monkey.patch_all()], which [run] calls first, the I/O of the
    scenario is another: a greenlet that waits for I/O switches to the
    hub in the middle of [test(test_result)], and goes on from there
    when the hub comes back to it. [spawn] puts the new greenlet at the
    back of the queue without running it; [join] runs the hub until
    every greenlet of the group has returned. *)

Module Scheduler.

(** The attributes of the test object that [_run] writes. One object is
    shared by all the greenlets of a run. *)
Record TestCase := {
  current_cycle : option Z;
  current_user : option Z
}.

(** The statements of [_run] that act on something shared, in program
    order. [Invoke cycle x] is [test(test_result)] in iteration [x] of
    the inner loop for [cycle]. [Waiting more] is not a statement of
    [_run]: it is where a greenlet stands that waits for I/O inside
    [test(test_result)], with [more] waits to come before the call
    returns. *)
Inductive step :=
| SetCurrentCycle (cycle : Z)
| SetCurrentUser (user : Z)
| Invoke (cycle x : Z)
| Waiting (more : nat)
| Sleep0.

Definition _run (num : Z) (cycles : list Z) (user : Z) : list step :=
  flat_map (fun cycle =>
              SetCurrentCycle cycle :: SetCurrentUser user ::
              flat_map (fun x => [Invoke cycle x; Sleep0]) (range cycle))
           cycles.

(** A spawned greenlet: the arguments [num] and [user] it was given and
    what is left of its body. *)
Record greenlet := {
  num : Z;
  user : Z;
  body : list step
}.

Definition with_body (g : greenlet) (k : list step) : greenlet :=
  {| num := g.(num); user := g.(user); body := k |}.

(** What an onlooker sees: an invocation, with the loop variables of the
    greenlet that made it and the test object as it was then; a switch
    to the hub inside the scenario; and the switch of [sleep(0)]. *)
Inductive event :=
| Invoked (user num cycle x : Z) (ob : TestCase)
| Waited (user num : Z)
| Yielded (user num : Z).

Section Scenario.

(** The result object and whatever else the scenario acts on. *)
Variable S : Type.

(** [test(test_result)]: the scenario reads the test object. What it
    does to the result object is taken at the start of the call. *)
Variable test : TestCase -> S -> S.

(** How many times the scenario waits for I/O, and so switches to the
    hub, before it returns: that is up to the network, and given here
    for every invocation, by the tier and the number of the greenlet
    and by the cycle and the iteration. The I/O is taken to be ready
    when the hub next comes to the greenlet. *)
Variable waits : Z -> Z -> Z -> Z -> nat.

(** Runs a greenlet up to its next switch: the rest of its body, or
    [None] when it returned. *)
Fixpoint resume (g : greenlet) (k : list step) (ob : TestCase) (s : S)
  : option (list step) * TestCase * S * list event :=
  match k with
  | [] => (None, ob, s, [])
  | SetCurrentCycle cycle :: k' =>
      resume g k' {| current_cycle := Some cycle;
                     current_user := ob.(current_user) |} s
  | SetCurrentUser user :: k' =>
      resume g k' {| current_cycle := ob.(current_cycle);
                     current_user := Some user |} s
  | Invoke cycle x :: k' =>
      match waits g.(user) g.(num) cycle x with
      | O =>
          let '(r, ob', s', evs) := resume g k' ob (test ob s) in
          (r, ob', s', Invoked g.(user) g.(num) cycle x ob :: evs)
      | Datatypes.S more =>
          (Some (Waiting more :: k'), ob, test ob s,
           [Invoked g.(user) g.(num) cycle x ob; Waited g.(user) g.(num)])
      end
  | Waiting more :: k' =>
      match more with
      | O => resume g k' ob s
      | Datatypes.S more' =>
          (Some (Waiting more' :: k'), ob, s, [Waited g.(user) g.(num)])
      end
  | Sleep0 :: k' => (Some k', ob, s, [Yielded g.(user) g.(num)])
  end.

(** The hub, for at most [fuel] switches into a greenlet. *)
Fixpoint hub (fuel : nat) (ready : list greenlet) (ob : TestCase) (s : S)
  : option (TestCase * S * list event) :=
  match ready with
  | [] => Some (ob, s, [])
  | g :: ready' =>
      match fuel with
      | O => None
      | Datatypes.S fuel' =>
          let '(r, ob1, s1, evs) := resume g g.(body) ob s in
          let ready1 := match r with
                        | Some k => ready' ++ [with_body g k]
                        | None => ready'
                        end in
          '(ob2, s2, evs') ← hub fuel' ready1 ob1 s1;
          Some (ob2, s2, evs ++ evs')
      end
  end.

(** The switches a greenlet needs to return: one more than its sleeps
    and its waits. *)
Fixpoint sleeps (g : greenlet) (k : list step) : nat :=
  match k with
  | [] => 0
  | Sleep0 :: k' => Datatypes.S (sleeps g k')
  | Invoke cycle x :: k' => waits g.(user) g.(num) cycle x + sleeps g k'
  | Waiting more :: k' => more + sleeps g k'
  | _ :: k' => sleeps g k'
  end.

Fixpoint switches (ready : list greenlet) : nat :=
  match ready with
  | [] => 0
  | g :: ready' => Datatypes.S (sleeps g g.(body) + switches ready')
  end.

(** [group.join()] *)
Definition join (group : list greenlet) (ob : TestCase) (s : S)
  : option (TestCase * S * list event) :=
  hub (switches group) group ob s.

(** The greenlets of one tier, in the order of the [spawn] calls. *)
Definition spawn_all (cycles : list Z) (user : Z) : list greenlet :=
  map (fun i => {| num := i; user := user; body := _run i cycles user |})
      (range user).

(** The loop over [users] of [run]; [None] only if a [join] ran out of
    fuel. *)
Fixpoint tiers (users cycles : list Z) (ob : TestCase) (s : S)
  : option (TestCase * S * list event) :=
  match users with
  | [] => Some (ob, s, [])
  | user :: users' =>
      '(ob1, s1, evs) ← join (spawn_all cycles user) ob s;
      '(ob2, s2, evs') ← tiers users' cycles ob1 s1;
      Some (ob2, s2, evs ++ evs')
  end.

(** [run(args)]: [ob] is the test object [klass(test.__name__)] and
    [test_result] the fresh result object. [monkey.patch_all()] is what
    makes the scenario's I/O switch, which [waits] stands for.
    Installing the stream and resolving the test by name do not bear on
    the schedule and are left out. *)
Definition run (args : Workload.Args) (ob : TestCase) (test_result : S)
  : result (option (TestCase * S * list event)) :=
  '(total, cycles, users, agents) ← Workload._compute args;
  Ok (tiers users cycles ob test_result).

End Scenario.

(** The invocations in a log. *)
Definition invocations (evs : list event) : list event :=
  List.filter (fun e => match e with Invoked _ _ _ _ _ => true | _ => false end)
              evs.

End Scheduler.

(** ** runner.py: the receive loop of the distributed run *)

Module Coordinator.

Section Loop.

(** A decoded result event, and [json.loads] on a frame. *)
Variable data : Type.
Variable json_loads : string -> result data.

(** A message is a list of frames. *)
Definition msg := list string.

Definition getitem0 (m : msg) : result string :=
  match m with
  | frame :: _ => Ok frame
  | [] => Raise IndexError
  end.

(** [received[0]], whether the loop has been told to stop, and what
    [echo] has been pushed, oldest first. *)
Record state := {
  received : Z;
  stopped : bool;
  echoed : list data
}.

Definition init : state :=
  {| received := 0; stopped := false; echoed := [] |}.

Definition recv_result (total : Z) (m : msg) (st : state) : result state :=
  frame ← getitem0 m;
  data ← json_loads frame;
  let echoed := st.(echoed) ++ [data] in
  let received := st.(received) + 1 in
  if received =? total
  then Ok {| received := received; stopped := true; echoed := echoed |}
  else Ok {| received := received; stopped := st.(stopped);
             echoed := echoed |}.

(** [loop.start()] with the messages that arrive, in order: each is
    handed to the callback until the loop is stopped; when no message
    is left the loop waits. An exception of the callback ends the model. *)
Fixpoint start (total : Z) (arrivals : list msg) (st : state)
  : result state :=
  match arrivals with
  | [] => Ok st
  | m :: arrivals' =>
      if st.(stopped) then Ok st
      else st' ← recv_result total m st; start total arrivals' st'
  end.

(** [distributed_run(args)] as far as the loop goes: the expected total
    is what [_compute] returns, and the loop starts with a counter at 0.
    Binding the socket and asking the broker to run the agents are left
    out. *)
Definition distributed_run (args : Workload.Args) (arrivals : list msg)
  : result state :=
  '(total, cycles, users, agents) ← Workload._compute args;
  start total arrivals init.

End Loop.

Arguments received {data} _.
Arguments stopped {data} _.
Arguments echoed {data} _.
Arguments init {data}.
Arguments recv_result {data} json_loads total m st.
Arguments start {data} json_loads total arrivals st.
Arguments distributed_run {data} json_loads args arrivals.

End Coordinator.

(** * Properties *)

(** ** Sums and comprehensions *)

Lemma fold_add_shift (l : list Z) (a : Z) : fold_left Z.add l a = a + sum l.
Proof.
  unfold sum. revert a. induction l as [|x l IH]; intros a; simpl.
  - lia.
  - rewrite (IH (a + x)), (IH (0 + x)). lia.
Qed.

Lemma sum_nil : sum [] = 0.
Proof. reflexivity. Qed.

Lemma sum_cons (x : Z) (l : list Z) : sum (x :: l) = x + sum l.
Proof. unfold sum at 1. simpl. apply fold_add_shift. Qed.

Lemma sum_scaled (u : Z) (l : list Z) :
  sum (map (fun c => c * u) l) = u * sum l.
Proof.
  induction l as [|c l IH]; simpl.
  - rewrite sum_nil. lia.
  - rewrite !sum_cons, IH. lia.
Qed.

Lemma int_raises_ValueError (s : string) (e : exn) :
  int s = Raise e -> e = ValueError.
Proof.
  unfold int. destruct (lstrip s) as [|c s'].
  - congruence.
  - repeat case_match; congruence.
Qed.

Lemma comprehension_raises {A B} (f : A -> result B) (l : list A) :
  raises (comprehension f l) <-> Exists (fun a => raises (f a)) l.
Proof.
  induction l as [|a l IH]; simpl.
  - split.
    + intros [e He]. discriminate.
    + intros H. inversion H.
  - rewrite Exists_cons, <- IH. unfold raises.
    destruct (f a) as [b|e]; simpl.
    + destruct (comprehension f l) as [bs|e']; simpl.
      * split; [intros [e He]; discriminate|].
        intros [[e He]|[e He]]; discriminate.
      * split; eauto.
    + split; eauto.
Qed.

Lemma comprehension_Ok {A B} (f : A -> result B) (l : list A) (bs : list B) :
  comprehension f l = Ok bs -> Forall2 (fun a b => f a = Ok b) l bs.
Proof.
  revert bs. induction l as [|a l IH]; intros bs; simpl.
  - intros [= <-]. constructor.
  - destruct (f a) as [b|e] eqn:Ha; simpl; [|done].
    destruct (comprehension f l) as [bs'|e]; simpl; [|done].
    intros [= <-]. constructor; auto.
Qed.

(** ** The workload plan *)

Section WorkloadFacts.
Import Workload.

Lemma tier_loop_total (us cs : list Z) (a : Z) :
  fold_left (fun total user => total + sum (map (fun cycle => cycle * user) cs))
            us a
  = a + sum (map (fun u => u * sum cs) us).
Proof.
  revert a. induction us as [|u us IH]; intros a; simpl.
  - rewrite sum_nil. lia.
  - rewrite IH, sum_cons, sum_scaled. lia.
Qed.

Lemma compute_accepts (args : Args) (us cs : list Z) :
  int_list args.(users) = Ok us ->
  int_list args.(cycles) = Ok cs ->
  _compute args = Ok (expected_total us cs args.(agents), cs, us, args.(agents)).
Proof.
  intros Hu Hc. unfold _compute, expected_total.
  rewrite Hu, Hc. simpl. rewrite tier_loop_total.
  destruct (agents args); simpl; do 4 f_equal; lia.
Qed.

Lemma comprehension_int_ValueError (l : list string) (e : exn) :
  comprehension int l = Raise e -> e = ValueError.
Proof.
  induction l as [|a l IH]; simpl; [done|].
  destruct (int a) as [b|e0] eqn:Ha; simpl.
  - destruct (comprehension int l); simpl; [done|].
    intros [= <-]. by apply IH.
  - intros [= <-]. eauto using int_raises_ValueError.
Qed.

Lemma int_list_raises (s : string) :
  raises (int_list s)
  <-> Exists (fun piece => int piece = Raise ValueError) (split ":" s).
Proof.
  unfold int_list. rewrite comprehension_raises.
  apply Exists_proper; [|done]. intros piece. split.
  - intros [e He]. rewrite He. f_equal. eauto using int_raises_ValueError.
  - intros He. by exists ValueError.
Qed.

(** C1. Whenever the users and the cycles spec parse to lists of
    positive integers, [_compute] returns, for any agent count or none,
    the total [agents (1 if none) * sum over u of (u * sum of the cycle
    sizes)] together with the cycle list and the user list, each holding
    the integers of its spec piece by piece in the order they were
    written. *)
Theorem compute_expected_total (args : Args) (us cs : list Z) :
  int_list args.(users) = Ok us ->
  int_list args.(cycles) = Ok cs ->
  Forall (fun u => 1 <= u) us ->
  Forall (fun c => 1 <= c) cs ->
  _compute args
  = Ok (default 1 args.(agents) * sum (map (fun u => u * sum cs) us),
        cs, us, args.(agents))
  /\ Forall2 (fun piece u => int piece = Ok u) (split ":" args.(users)) us
  /\ Forall2 (fun piece c => int piece = Ok c) (split ":" args.(cycles)) cs.
Proof.
  intros Hu Hc _ _. rewrite (compute_accepts args us cs Hu Hc).
  split; [reflexivity|]. split; by apply comprehension_Ok.
Qed.

Lemma compute_expected_total_witness :
  _compute {| users := "1:2"; cycles := "3:4"; agents := Some 5 |}
  = Ok (default 1 (Some 5) * sum (map (fun u => u * sum [3; 4]) [1; 2]),
        [3; 4], [1; 2], Some 5)
  /\ Forall2 (fun piece u => int piece = Ok u) (split ":" "1:2") [1; 2]
  /\ Forall2 (fun piece c => int piece = Ok c) (split ":" "3:4") [3; 4].
Proof.
  apply (compute_expected_total
           {| users := "1:2"; cycles := "3:4"; agents := Some 5 |}
           [1; 2] [3; 4]).
  - reflexivity.
  - reflexivity.
  - repeat constructor; lia.
  - repeat constructor; lia.
Defined.

(** C3, as the code refutes it: the users spec "0" and the cycles spec
    "2:0" are accepted, and the plan that comes back holds the 0. *)
Lemma compute_accepts_zero :
  _compute {| users := "0"; cycles := "2:0"; agents := None |}
  = Ok (0, [2; 0], [0], None)
  /\ ~ raises (_compute {| users := "0"; cycles := "2:0"; agents := None |}).
Proof.
  split; [reflexivity|]. intros [e He]. vm_compute in He. discriminate.
Qed.

(** C3, amended. [_compute] fails exactly when a piece between the
    colons of the users or of the cycles spec is not an integer literal,
    and then with a [ValueError] that [run] passes on before anything is
    spawned; the sign of the integers plays no part: a spec of integer
    literals comes back as the plan, values below 1 included. *)
Theorem compute_rejects_only_malformed (args : Args) :
  (raises (_compute args)
   <-> Exists (fun piece => int piece = Raise ValueError)
              (split ":" args.(users) ++ split ":" args.(cycles)))
  /\ (forall e, _compute args = Raise e ->
        e = ValueError
        /\ forall S (test : Scheduler.TestCase -> S -> S) waits ob s,
             Scheduler.run S test waits args ob s = Raise ValueError)
  /\ (forall us cs, int_list args.(users) = Ok us ->
        int_list args.(cycles) = Ok cs ->
        exists total, _compute args = Ok (total, cs, us, args.(agents))).
Proof.
  split; [|split].
  - rewrite Exists_app, <- !int_list_raises. unfold _compute, raises.
    destruct (int_list args.(users)) as [us|e1]; simpl.
    + destruct (int_list args.(cycles)) as [cs|e2]; simpl.
      * split; [intros [e He]; discriminate|].
        intros [[e He]|[e He]]; discriminate.
      * split; eauto.
    + split; eauto.
  - intros e He. assert (e = ValueError) as ->.
    { revert He. unfold _compute.
      destruct (int_list args.(users)) as [us|e1] eqn:Hu; simpl.
      - destruct (int_list args.(cycles)) as [cs|e2] eqn:Hc; simpl; [done|].
        intros [= <-]. eauto using comprehension_int_ValueError.
      - intros [= <-]. eauto using comprehension_int_ValueError. }
    split; [reflexivity|].
    intros S test waits ob s. unfold Scheduler.run. rewrite He. reflexivity.
  - intros us cs Hu Hc. eexists. apply compute_accepts; assumption.
Qed.

Lemma compute_rejects_only_malformed_witness :
  raises (_compute {| users := "2:x"; cycles := "1"; agents := None |}).
Proof.
  apply (proj1 (compute_rejects_only_malformed
                  {| users := "2:x"; cycles := "1"; agents := None |})).
  apply Exists_cons_tl. apply Exists_cons_hd. reflexivity.
Defined.

End WorkloadFacts.

(** ** The result sink *)

Section SinkFacts.
Import TestResult.

(** A clock that advances one second per reading, and a world that
    starts with it. *)
Definition seconds_clock : World :=
  {| clock := fun n => Z.of_nat n * us_per_second; tick := 0; pushed := [] |}.

Definition status_1_1 : loads_status := (None, None, Some 1, Some 1).

(** *** Observers *)

Lemma tests_getitem_keeps k self w ob self' w' :
  tests_getitem k self w = (ob, self', w') ->
  self'.(observers) = self.(observers) /\ w'.(pushed) = w.(pushed).
Proof.
  unfold tests_getitem. destruct (tests self !! k); intros [= <- <- <-]; done.
Qed.

Lemma attr_keeps_observers c self w self' w' :
  attr c self w = Ok (self', w') ->
  self'.(observers) = self.(observers) /\ w'.(pushed) = w.(pushed).
Proof.
  destruct c as [| |? st ?|? st ?|? ? st ?|? ? st ?|? st ?|data| | |]; simpl;
    try (intros [= <- <-]; done).
  all: try (unfold startTest, stopTest, addError, addFailure, addSuccess,
              _get_test, key_of;
            destruct st as [[[cy us] cc] cu];
            destruct (tests_getitem _ self w) as [[ob self1] w1] eqn:Hget;
            apply tests_getitem_keeps in Hget as [Ho Hp];
            intros [= <- <-]; simpl; done).
  unfold add_hit. destruct (Hit.new data); simpl; [|done].
  intros [= <- <-]. done.
Qed.

Lemma pushed_fold_push c (obs : list observer) w :
  (fold_left (push c) obs w).(pushed)
  = w.(pushed) ++ map (fun o => (o, c)) obs.
Proof.
  revert w. induction obs as [|o obs IH]; intros w; simpl.
  - by rewrite app_nil_r.
  - rewrite IH. simpl. by rewrite <- app_assoc.
Qed.

(** The pushes one call causes, as the code has them. *)
Definition pushes_of (obs : list observer) (c : call)
  : list (observer * call) :=
  if bool_decide (name_of c ∈ wrapped_names)
  then map (fun o => (o, c)) obs
  else [].

Lemma getattribute_pushes c self w self' w' :
  __getattribute__ c self w = Ok (self', w') ->
  self'.(observers) = self.(observers)
  /\ w'.(pushed) = w.(pushed) ++ pushes_of self.(observers) c.
Proof.
  unfold __getattribute__, pushes_of. case_bool_decide as Hin.
  - destruct (attr c self w) as [[self1 w1]|e] eqn:Hattr; simpl; [|done].
    intros [= <- <-]. apply attr_keeps_observers in Hattr as [Ho Hp].
    split; [done|]. by rewrite pushed_fold_push, Ho, Hp.
  - intros Hattr. apply attr_keeps_observers in Hattr as [Ho Hp].
    split; [done|]. by rewrite app_nil_r.
Qed.

Lemma replay_pushes cs self w self' w' :
  replay cs self w = Ok (self', w') ->
  self'.(observers) = self.(observers)
  /\ w'.(pushed) = w.(pushed) ++ flat_map (pushes_of self.(observers)) cs.
Proof.
  revert self w. induction cs as [|c cs IH]; intros self w; simpl.
  - intros [= <- <-]. by rewrite app_nil_r.
  - destruct (__getattribute__ c self w) as [[self1 w1]|e] eqn:Hc; simpl;
      [|done].
    intros Hcs. apply getattribute_pushes in Hc as [Ho Hp].
    apply IH in Hcs as [Ho' Hp']. split; [congruence|].
    by rewrite Hp', Hp, Ho, <- app_assoc.
Qed.

(** C2, where the code departs from it: [socket_close] is not among the
    names [__getattribute__] wraps. On any sink, whatever observers are
    registered, the call moves the gauge and leaves the world as it was,
    so no observer is pushed; the same sink does push [socket_open] to
    every observer. *)
Theorem socket_close_not_pushed (st : loads_status) (wid : option Z)
    (self : t) (w : World) :
  (exists self',
      __getattribute__ (SocketClose st wid) self w = Ok (self', w)
      /\ self'.(sockets) = self.(sockets) - 1
      /\ self'.(observers) = self.(observers))
  /\ (exists self' w',
         __getattribute__ (SocketOpen st wid) self w = Ok (self', w')
         /\ w'.(pushed)
            = w.(pushed) ++ map (fun o => (o, SocketOpen st wid))
                                self.(observers)).
Proof.
  split.
  - eexists. split; [reflexivity|]. done.
  - eexists _, _. split; [reflexivity|]. simpl. apply pushed_fold_push.
Qed.

Lemma wrapped_all_but_socket_close (c : call) :
  bool_decide (name_of c ∈ wrapped_names)
  = match c with SocketClose _ _ => false | _ => true end.
Proof. destruct c; reflexivity. Qed.

(** Every call but [socket_close] is pushed: after a sequence of calls
    that returns, the observers have been pushed, call by call in the
    order of the calls, each call once per observer in the order of
    registration, [socket_close] left out. *)
Theorem observers_pushed_in_call_order cs self w self' w' :
  replay cs self w = Ok (self', w') ->
  w'.(pushed)
  = w.(pushed)
    ++ flat_map (fun c => match c with
                          | SocketClose _ _ => []
                          | _ => map (fun o => (o, c)) self.(observers)
                          end) cs.
Proof.
  intros Hreplay. apply replay_pushes in Hreplay as [_ ->]. f_equal.
  apply flat_map_ext. intros c. unfold pushes_of.
  rewrite wrapped_all_but_socket_close. by destruct c.
Qed.

Lemma observers_pushed_in_call_order_witness :
  (seconds_clock).(pushed)
  ++ [(1%nat, SocketOpen status_1_1 None); (2%nat, SocketOpen status_1_1 None);
      (1%nat, StartTestRun None); (2%nat, StartTestRun None)]
  = (seconds_clock).(pushed)
    ++ flat_map (fun c => match c with
                          | SocketClose _ _ => []
                          | _ => map (fun o => (o, c))
                                     (add_observer 2%nat
                                        (add_observer 1%nat __init__)).(observers)
                          end)
                [SocketOpen status_1_1 None; SocketClose status_1_1 None;
                 StartTestRun None].
Proof.
  apply (observers_pushed_in_call_order
           [SocketOpen status_1_1 None; SocketClose status_1_1 None;
            StartTestRun None]
           (add_observer 2%nat (add_observer 1%nat __init__)) seconds_clock
           {| hits := []; tests := ∅; sockets := 0;
              socket_data_received := 0;
              start_time := Some 0; stop_time := None;
              observers := [1%nat; 2%nat] |}
           {| clock := seconds_clock.(clock); tick := 1;
              pushed := [(1%nat, SocketOpen status_1_1 None);
                         (2%nat, SocketOpen status_1_1 None);
                         (1%nat, StartTestRun None);
                         (2%nat, StartTestRun None)] |}).
  reflexivity.
Defined.

(** *** Durations of tests *)

Lemma sum_from_None (l : list (option Z)) (acc : Z) :
  None ∈ l -> sum_from acc l = Raise TypeError.
Proof.
  revert acc. induction l as [|[d|] l IH]; intros acc Hin; simpl.
  - by apply elem_of_nil in Hin.
  - apply IH. by apply elem_of_cons in Hin as [|].
  - done.
Qed.

Lemma sum_from_Some (l : list Z) (acc : Z) :
  sum_from acc (Some <$> l) = Ok (acc + sum l).
Proof.
  revert acc. induction l as [|d l IH]; intros acc; simpl.
  - rewrite sum_nil. f_equal. lia.
  - rewrite IH, sum_cons. f_equal. lia.
Qed.

(** As long as one matching test has not been stopped, the mean is not
    returned: the sum meets a [None]. *)
Lemma average_test_duration_unfinished test cycle self (ob : Test.t) :
  In ob (_get_tests test cycle None self) ->
  Test.finished ob = false ->
  average_test_duration test cycle self = Raise TypeError.
Proof.
  intros Hin Hfin. unfold average_test_duration.
  assert (None ∈ map Test.duration (_get_tests test cycle None self)) as HN.
  { apply list_elem_of_In, in_map_iff. exists ob. split; [|done].
    unfold Test.duration, Test.finished in *. by destruct (Test.end_ ob). }
  destruct (map Test.duration (_get_tests test cycle None self)) eqn:Hd.
  - by apply elem_of_nil in HN.
  - by rewrite (sum_from_None _ 0 HN).
Qed.

(** The mean the specification describes: over the matching tests that
    have a duration. *)
Definition mean_finished_duration (test : option string) (cycle : option Z)
    (self : t) : option Q :=
  let ds := omap Test.duration (_get_tests test cycle None self) in
  match ds with
  | [] => None
  | _ :: _ => Some (inject_Z (sum ds) / inject_Z (Z.of_nat (length ds)))%Q
  end.

(** C5, where the code departs from it. Test "a" ran from second 0 to
    second 1 and test "b" was started and not stopped: the mean over the
    finished tests is 1, but [average_test_duration] raises a
    [TypeError], because its comprehension keeps the [None] duration
    of "b". *)
Theorem average_test_duration_raises_on_unfinished :
  exists rs w,
    replay [StartTest "a" status_1_1 None; StopTest "a" status_1_1 None;
            StartTest "b" status_1_1 None] __init__ seconds_clock
    = Ok (rs, w)
    /\ mean_finished_duration None None rs = Some (1 # 1)%Q
    /\ average_test_duration None None rs = Raise TypeError.
Proof.
  eexists _, _. split; [vm_compute; reflexivity|].
  split; vm_compute; reflexivity.
Qed.

(** *** The run's duration *)

Lemma tests_per_second_not_stopped (self : t) :
  self.(stop_time) = None -> tests_per_second self = Raise TypeError.
Proof. intros H. unfold tests_per_second, since_start. by rewrite H. Qed.

(** C7, where the code departs from it. The run was started at second 0
    and not stopped, with one test recorded: the [duration] property
    falls back on the clock and returns 3 seconds, while
    [tests_per_second] subtracts from [stop_time] itself, which is
    [None], and raises a [TypeError]. *)
Theorem tests_per_second_raises_before_stop :
  exists rs w w',
    replay [StartTestRun None; StartTest "a" status_1_1 None;
            StopTest "a" status_1_1 None] __init__ seconds_clock
    = Ok (rs, w)
    /\ rs.(start_time) = Some 0
    /\ nb_tests rs = 1
    /\ duration rs w = Ok (3, w')
    /\ tests_per_second rs = Raise TypeError.
Proof.
  eexists _, _, _. split; [vm_compute; reflexivity|].
  repeat split; vm_compute; reflexivity.
Qed.

(** *** Request times *)

Lemma differs_false {A} `{EqDecision A} (a b : A) :
  bool_decide (a ≠ b) = false <-> a = b.
Proof.
  rewrite bool_decide_eq_false. split; [|by intros -> H].
  intros H. by destruct (decide (a = b)).
Qed.

(** A hit matches the filters when it has the url asked for, if one is,
    and was made in the cycle asked for, if one is. *)
Definition passes (url : option string) (cycle : option Z) (h : Hit.t)
  : Prop :=
  match url with
  | Some u => h.(Hit.url) = u
  | None => True
  end
  /\ match cycle with
     | Some c => h.(Hit.current_cycle) = Some c
     | None => True
     end.

#[global] Instance passes_dec url cycle h : Decision (passes url cycle h).
Proof. unfold passes. destruct url, cycle; apply _. Defined.

Lemma hit_filter_passes (url : option string) (cycle : option Z) (h : Hit.t) :
  hit_filter url cycle h = true <-> passes url cycle h.
Proof.
  unfold hit_filter, passes.
  assert (forall b : bool, (if b then false else true) = true <-> b = false)
    as Hif by (intros []; split; done).
  destruct cycle as [c|], url as [u|].
  - destruct (bool_decide (Hit.current_cycle h ≠ Some c)) eqn:Hc.
    + split; [done|]. intros [_ H].
      apply (proj2 (differs_false _ _)) in H. congruence.
    + apply (proj1 (differs_false _ _)) in Hc. rewrite Hif, differs_false.
      split; [done|]. by intros [H _].
  - rewrite Hif, differs_false. split; [done|]. by intros [_ H].
  - rewrite Hif, differs_false. split; [done|]. by intros [H _].
  - done.
Qed.

(** [_get_hits] keeps the matching hits, each as often as it was
    recorded and in the order of recording. *)
Lemma get_hits_filter (url : option string) (cycle : option Z) (self : t) :
  _get_hits url cycle self = filter (passes url cycle) self.(hits).
Proof.
  unfold _get_hits. induction self.(hits) as [|h hs IH]; [done|].
  rewrite filter_cons. simpl. rewrite IH.
  destruct (decide (passes url cycle h)) as [Hp|Hp].
  - by apply hit_filter_passes in Hp as ->.
  - destruct (hit_filter url cycle h) eqn:Hf; [|done].
    by apply hit_filter_passes in Hf.
Qed.

(** The arithmetic mean of a list of rationals. *)
Definition mean (l : list Q) : Q :=
  (fold_left Qplus l 0 / inject_Z (Z.of_nat (length l)))%Q.

(** The mean as floating point gives it: the sum from left to right,
    rounded at every addition, over the number of terms, rounded. *)
Definition float_mean (l : list Q) : Q :=
  nearest (float_sum l / float_of_int (Z.of_nat (length l))).

(** A hit on "/" that took a tenth of a second, and a sink in which
    three of them are recorded. *)
Definition tenth_hit : Hit.kwargs :=
  {| Hit.kw_url := Some "/"%string; Hit.kw_method := Some "GET"%string;
     Hit.kw_status := Some 200; Hit.kw_started := Some 0;
     Hit.kw_elapsed :=
       Some (Hit.Delta {| days := 0; seconds := 0; microseconds := 100000 |});
     Hit.kw_loads_status := Some None; Hit.kw_worker_id := None |}.

Definition three_tenths : list call :=
  [AddHit tenth_hit; AddHit tenth_hit; AddHit tenth_hit].

(** C9, as the code refutes it. Three hits of a tenth of a second each
    are recorded; the arithmetic mean of their elapsed times is a tenth
    of a second, and the float nearest to it is 0.1. The code adds the
    three floats one by one, 0.30000000000000004, and divides by 3:
    [average_request_time] returns 0.10000000000000002, the float next
    above 0.1. *)
Lemma average_request_time_rounds :
  exists rs w,
    replay three_tenths __init__ seconds_clock = Ok (rs, w)
    /\ length rs.(hits) = 3%nat
    /\ Forall (fun h => (total_seconds h.(Hit.elapsed) == 1 # 10)%Q) rs.(hits)
    /\ (mean (map (fun h => total_seconds h.(Hit.elapsed)) rs.(hits))
        == 1 # 10)%Q
    /\ nearest (1 # 10) = (3602879701896397 # 36028797018963968)%Q
    /\ average_request_time None None rs
       = Ok (7205759403792795 # 72057594037927936)%Q
    /\ ~ (7205759403792795 # 72057594037927936 == 1 # 10)%Q
    /\ ~ (7205759403792795 # 72057594037927936
          == 3602879701896397 # 36028797018963968)%Q.
Proof.
  eexists _, _. split; [vm_compute; reflexivity|].
  split; [reflexivity|]. split; [repeat constructor|].
  split; [reflexivity|]. split; [vm_compute; reflexivity|].
  split; [vm_compute; reflexivity|]. split; intros H; vm_compute in H; done.
Qed.

(** C9, amended. For every sink and every url and cycle filter,
    [average_request_time] returns without raising. The hits it
    averages are the recorded hits that match the filters, each as
    often as recorded and in the order of recording. When there is
    none it returns 0 and divides nothing; otherwise it returns their
    mean as floating point gives it: the [total_seconds()] of each
    elapsed time as a float, these added from left to right with a
    rounding at each addition, and the sum divided by their number,
    rounded. *)
Theorem average_request_time_float_mean (url : option string)
    (cycle : option Z) (self : t) :
  average_request_time url cycle self
  = Ok (match filter (passes url cycle) self.(hits) with
        | [] => 0%Q
        | h :: hs =>
            float_mean (map (fun h => nearest (total_seconds h.(Hit.elapsed)))
                            (h :: hs))
        end).
Proof.
  unfold average_request_time. rewrite get_hits_filter.
  destruct (filter (passes url cycle) self.(hits)) as [|h hs]; [done|].
  unfold float_div, float_mean. by rewrite length_map.
Qed.

Lemma true_div_length (a : Q) {A} (x : A) (l : list A) :
  true_div a (inject_Z (Z.of_nat (length (x :: l))))
  = Ok (a / inject_Z (Z.of_nat (length (x :: l))))%Q.
Proof.
  unfold true_div.
  destruct (Qeq_bool _ 0) eqn:Hz; [|done].
  apply Qeq_bool_eq in Hz. unfold Qeq in Hz. simpl in Hz. lia.
Qed.

(** *** The queries where they return *)

Lemma durations_finished (l : list Test.t) :
  Forall (fun ob => Test.finished ob = true) l ->
  map Test.duration l = Some <$> omap Test.duration l.
Proof.
  induction 1 as [|ob l Hob _ IH]; simpl; [done|].
  unfold Test.finished in Hob. unfold Test.duration at 1 3.
  destruct (Test.end_ ob); [|done]. simpl. by rewrite IH.
Qed.

(** When every matching test has been stopped, and there is one,
    [average_test_duration] returns the mean of their durations. *)
Theorem average_test_duration_all_finished test cycle self :
  Forall (fun ob => Test.finished ob = true)
         (_get_tests test cycle None self) ->
  _get_tests test cycle None self <> [] ->
  average_test_duration test cycle self
  = Ok (mean_finished_duration test cycle self).
Proof.
  intros Hfin Hne. unfold average_test_duration, mean_finished_duration.
  rewrite (durations_finished _ Hfin).
  destruct (_get_tests test cycle None self) as [|ob l]; [done|].
  assert (exists d, Test.duration ob = Some d) as [d Hd].
  { apply Forall_cons in Hfin as [Hob _].
    unfold Test.finished in Hob. unfold Test.duration.
    destruct (Test.end_ ob); [by eexists|done]. }
  change (omap Test.duration (ob :: l))
    with (match Test.duration ob with
          | Some y => y :: omap Test.duration l
          | None => omap Test.duration l
          end).
  rewrite Hd. generalize (omap Test.duration l) as ds. intros ds.
  rewrite fmap_cons. cbv beta iota. rewrite <- fmap_cons.
  rewrite sum_from_Some, length_fmap.
  unfold mbind at 1, result_bind at 1. cbv beta iota.
  rewrite true_div_length. simpl. do 3 f_equal.
Qed.

(** A bucket as [startTest] and [stopTest] leave it when the status
    tuple carries the current cycle and user only. *)
Definition bucket (name : string) (cycle : Z) (start : datetime)
    (end_ : option datetime) : Test.t :=
  {| Test.start := start; Test.end_ := end_; Test.name := Some name;
     Test.cycle := None; Test.current_cycle := Some cycle;
     Test.failures := []; Test.errors := []; Test.success := 0;
     Test.user := None |}.

(** A sink with four tests: "a" in cycle 1 for the users 1 and 2, which
    took 2 and 5 seconds; "a" in cycle 2, which took 9 seconds; and "b"
    in cycle 1, not stopped. *)
Definition four_tests : t :=
  {| hits := [];
     tests :=
       {[ ("a"%string, Some 1, Some 1, None) :=
            bucket "a" 1 0 (Some (2 * us_per_second));
          ("a"%string, Some 2, Some 1, None) :=
            bucket "a" 1 us_per_second (Some (6 * us_per_second));
          ("a"%string, Some 1, Some 2, None) :=
            bucket "a" 2 0 (Some (9 * us_per_second));
          ("b"%string, Some 1, Some 1, None) := bucket "b" 1 0 None ]};
     sockets := 0; socket_data_received := 0; start_time := None;
     stop_time := None; observers := [] |}.

Lemma average_test_duration_all_finished_witness :
  average_test_duration (Some "a"%string) (Some 1) four_tests
  = Ok (mean_finished_duration (Some "a"%string) (Some 1) four_tests)
  /\ mean_finished_duration (Some "a"%string) (Some 1) four_tests
     = Some (7 # 2)%Q
  /\ length (_get_tests (Some "a"%string) (Some 1) None four_tests) = 2%nat
  /\ length (_get_tests None None None four_tests) = 4%nat.
Proof.
  split; [|split; [|split]].
  - apply (average_test_duration_all_finished (Some "a"%string) (Some 1)
                                              four_tests).
    + vm_compute. repeat constructor.
    + vm_compute. discriminate.
  - vm_compute. reflexivity.
  - vm_compute. reflexivity.
  - vm_compute. reflexivity.
Defined.

(** A sink with one test, stopped two seconds after it started. *)
Definition one_finished_test : t :=
  {| hits := [];
     tests := {[ ("a"%string, Some 1, Some 1, None) :=
                   {| Test.start := 0; Test.end_ := Some (2 * us_per_second);
                      Test.name := Some "a"%string; Test.cycle := None;
                      Test.current_cycle := Some 1;
                      Test.failures := []; Test.errors := [];
                      Test.success := 1; Test.user := None |} ]};
     sockets := 0; socket_data_received := 0; start_time := None;
     stop_time := None; observers := [] |}.

(** A run of five seconds in which three tests were started. *)
Definition five_second_run : t :=
  {| hits := [];
     tests := {[ ("a"%string, None, None, None) := Test.__init__ 0;
                 ("b"%string, None, None, None) := Test.__init__ 0;
                 ("c"%string, None, None, None) := Test.__init__ 0 ]};
     sockets := 0; socket_data_received := 0;
     start_time := Some 0; stop_time := Some (5 * us_per_second);
     observers := [] |}.

(** *** Hits *)

Lemma normalize_days (n : Z) :
  normalize (n * us_per_day)
  = {| days := n; seconds := 0; microseconds := 0 |}.
Proof.
  unfold normalize. f_equal.
  - apply Z.div_mul. discriminate.
  - rewrite Z.mod_mul by discriminate. reflexivity.
  - unfold us_per_day. rewrite Z.mul_assoc. apply Z.mod_mul. discriminate.
Qed.

Lemma total_seconds_days (n : Z) :
  (total_seconds {| days := n; seconds := 0; microseconds := 0 |}
   == inject_Z (n * 86400))%Q.
Proof.
  unfold total_seconds, Qeq, us_per_second. simpl. lia.
Qed.

(** Keyword arguments that name everything [Hit] requires but, for
    [loads_status], what the caller chooses. *)
Definition hit_data (elapsed : Hit.elapsed_arg)
    (status : option (option loads_status)) : Hit.kwargs :=
  {| Hit.kw_url := Some "/"%string; Hit.kw_method := Some "GET"%string;
     Hit.kw_status := Some 200; Hit.kw_started := Some 0;
     Hit.kw_elapsed := Some elapsed; Hit.kw_loads_status := status;
     Hit.kw_worker_id := None |}.

(** C10, as the code refutes it: [loads_status] is a parameter of [Hit]
    without a default, so when the keyword is absent [add_hit] raises a
    [TypeError] and stores nothing, rather than a hit whose four status
    fields are [None]. *)
Lemma add_hit_without_status_raises :
  Hit.new (hit_data (Hit.Number 1) None) = Raise TypeError
  /\ __getattribute__ (AddHit (hit_data (Hit.Number 1) None))
                      __init__ seconds_clock
     = Raise TypeError.
Proof. split; reflexivity. Qed.

(** C10, amended. When [add_hit] is given every required keyword and an
    [elapsed] that is a plain integer [n] of at most 999999999 in
    magnitude (the range of [timedelta]), the hit is appended with
    [elapsed] equal to [timedelta(days=n)], whose [total_seconds()] is
    [n * 86400]; when [loads_status] is [None] the stored hit has
    [cycle], [user], [current_cycle] and [current_user] all [None]; and
    when the [loads_status] keyword is absent the call raises a
    [TypeError] and stores nothing. *)
Theorem add_hit_number_is_days (data : Hit.kwargs) (n : Z) (self : t)
    (w : World) :
  is_Some data.(Hit.kw_url) -> is_Some data.(Hit.kw_method) ->
  is_Some data.(Hit.kw_status) -> is_Some data.(Hit.kw_started) ->
  data.(Hit.kw_elapsed) = Some (Hit.Number n) ->
  -999999999 <= n <= 999999999 ->
  match data.(Hit.kw_loads_status) with
  | None => add_hit data self w = Raise TypeError
  | Some status =>
      exists hit self',
        add_hit data self w = Ok (self', w)
        /\ self'.(hits) = self.(hits) ++ [hit]
        /\ hit.(Hit.elapsed)
           = {| days := n; seconds := 0; microseconds := 0 |}
        /\ (total_seconds hit.(Hit.elapsed) == inject_Z (n * 86400))%Q
        /\ (status = None ->
            hit.(Hit.cycle) = None /\ hit.(Hit.user) = None
            /\ hit.(Hit.current_cycle) = None
            /\ hit.(Hit.current_user) = None)
  end.
Proof.
  intros [url Hurl] [method Hmethod] [status Hstatus] [started Hstarted]
         Helapsed Hrange.
  unfold add_hit, Hit.new. rewrite Hurl, Hmethod, Hstatus, Hstarted, Helapsed.
  destruct (Hit.kw_loads_status data) as [ls|]; [|reflexivity].
  unfold Hit.__init__, timedelta_of_days.
  replace ((-999999999 <=? n) && (n <=? 999999999)) with true
    by (symmetry; apply andb_true_iff; split; apply Z.leb_le; lia).
  rewrite normalize_days. simpl.
  destruct (default (None, None, None, None) ls) as [[[cy us] cc] cu] eqn:Hls.
  simpl. eexists _, _. split; [reflexivity|]. simpl.
  split; [reflexivity|]. split; [reflexivity|].
  split; [apply total_seconds_days|].
  intros ->. simpl in Hls. by injection Hls as <- <- <- <-.
Qed.

Lemma add_hit_number_is_days_witness :
  exists hit self',
    add_hit (hit_data (Hit.Number 2) (Some None)) __init__ seconds_clock
    = Ok (self', seconds_clock)
    /\ self'.(hits) = __init__.(hits) ++ [hit]
    /\ hit.(Hit.elapsed) = {| days := 2; seconds := 0; microseconds := 0 |}
    /\ (total_seconds hit.(Hit.elapsed) == inject_Z (2 * 86400))%Q
    /\ (@None loads_status = None ->
        hit.(Hit.cycle) = None /\ hit.(Hit.user) = None
        /\ hit.(Hit.current_cycle) = None /\ hit.(Hit.current_user) = None).
Proof.
  apply (add_hit_number_is_days (hit_data (Hit.Number 2) (Some None)) 2
                                __init__ seconds_clock).
  - by eexists.
  - by eexists.
  - by eexists.
  - by eexists.
  - reflexivity.
  - lia.
Defined.

End SinkFacts.

(** ** The receive loop of the coordinator *)

Section CoordinatorFacts.
Import Coordinator.

Context {data : Type} (json_loads : string -> result data).

(** A message that carries a result event: its first frame decodes. *)
Definition carries (m : msg) (d : data) : Prop :=
  exists frame frames, m = frame :: frames /\ json_loads frame = Ok d.

Definition result_event (m : msg) : Prop := exists d, carries m d.

Lemma recv_result_counts (total : Z) (m : msg) (d : data) (st : state data) :
  carries m d ->
  recv_result json_loads total m st
  = Ok {| received := st.(received) + 1;
          stopped := if st.(received) + 1 =? total then true
                     else st.(stopped);
          echoed := st.(echoed) ++ [d] |}.
Proof.
  intros (frame & frames & -> & Hd). unfold recv_result. simpl.
  rewrite Hd. simpl. by destruct (received st + 1 =? total).
Qed.

Lemma start_from (total : Z) (msgs : list msg) (st : state data) :
  Forall result_event msgs ->
  st.(stopped) = false ->
  st.(received) < total ->
  exists st' ds,
    start json_loads total msgs st = Ok st'
    /\ st'.(received)
       = Z.min total (st.(received) + Z.of_nat (length msgs))
    /\ (st'.(stopped) = true
        <-> total <= st.(received) + Z.of_nat (length msgs))
    /\ st'.(echoed) = st.(echoed) ++ ds
    /\ Forall2 carries (take (Z.to_nat (total - st.(received))) msgs) ds.
Proof.
  intros Hmsgs. revert st.
  induction Hmsgs as [|m msgs [d Hm] _ IH]; intros st Hrun Hlt.
  - exists st, []. simpl. rewrite app_nil_r, take_nil.
    repeat split; try done; try lia. rewrite Hrun. done.
  - simpl. rewrite Hrun, (recv_result_counts total m d st Hm). simpl.
    destruct (received st + 1 =? total) eqn:Hlast.
    + apply Z.eqb_eq in Hlast.
      eexists _, [d]. split.
      { destruct msgs; simpl; reflexivity. }
      simpl. replace (Z.to_nat (total - received st)) with 1%nat by lia.
      simpl. rewrite take_0.
      repeat split; try done; try lia. repeat constructor. exact Hm.
    + apply Z.eqb_neq in Hlast.
      destruct (IH {| received := received st + 1; stopped := stopped st;
                      echoed := echoed st ++ [d] |})
        as (st' & ds & Hst & Hrec & Hstop & Hecho & Hds);
        [done|simpl; lia|].
      simpl in *. exists st', (d :: ds). split; [exact Hst|].
      split; [rewrite Hrec; lia|]. split; [rewrite Hstop; lia|].
      split; [by rewrite Hecho, <- app_assoc|].
      replace (Z.to_nat (total - received st))
        with (Datatypes.S (Z.to_nat (total - (received st + 1)))) by lia.
      simpl. constructor; done.
Qed.

(** C8. With an expected total [N >= 1] and any sequence of messages
    that carry result events, in whatever order they arrive: each call
    of [recv_result] adds exactly one to the counter; the loop ends with
    the counter at [min N (number of messages)], is stopped exactly when
    at least [N] messages have arrived, and has handed to [echo] the
    events of the first [N] messages and of no other. *)
Theorem receive_loop_stops_at_total (N : Z) (msgs : list msg) :
  1 <= N ->
  Forall result_event msgs ->
  (forall m st st', In m msgs ->
     recv_result json_loads N m st = Ok st' ->
     st'.(received) = st.(received) + 1)
  /\ exists st,
       start json_loads N msgs init = Ok st
       /\ st.(received) = Z.min N (Z.of_nat (length msgs))
       /\ (st.(stopped) = true <-> N <= Z.of_nat (length msgs))
       /\ Forall2 carries (take (Z.to_nat N) msgs) st.(echoed).
Proof.
  intros HN Hmsgs. split.
  - intros m st st' Hin Hrecv.
    rewrite Forall_forall in Hmsgs.
    destruct (Hmsgs m) as [d Hd]; [by apply list_elem_of_In|].
    rewrite (recv_result_counts N m d st Hd) in Hrecv.
    by injection Hrecv as <-.
  - destruct (start_from N msgs init Hmsgs)
      as (st & ds & Hst & Hrec & Hstop & Hecho & Hds); [done|simpl; lia|].
    simpl in *. exists st. rewrite Z.sub_0_r in Hds.
    rewrite Hecho. done.
Qed.

End CoordinatorFacts.

Lemma receive_loop_stops_at_total_witness :
  (forall m st st', In m [["a"]; ["b"]; ["c"]]%string ->
     Coordinator.recv_result Ok 2 m st = Ok st' ->
     st'.(Coordinator.received) = st.(Coordinator.received) + 1)
  /\ exists st,
       Coordinator.start Ok 2 [["a"]; ["b"]; ["c"]]%string
                         Coordinator.init = Ok st
       /\ st.(Coordinator.received) = Z.min 2 (Z.of_nat 3)
       /\ (st.(Coordinator.stopped) = true <-> 2 <= Z.of_nat 3)
       /\ Forall2 (carries Ok) (take (Z.to_nat 2) [["a"]; ["b"]; ["c"]]%string)
                  st.(Coordinator.echoed).
Proof.
  apply (receive_loop_stops_at_total Ok 2 [["a"]; ["b"]; ["c"]]%string).
  - lia.
  - repeat constructor; eexists; eexists _, _; split; reflexivity.
Defined.

(** ** The local run *)

(** An invocation saw the test object carry its own cycle and tier. *)
Definition matched (e : Scheduler.event) : Prop :=
  match e with
  | Scheduler.Invoked user _ cycle _ ob =>
      ob.(Scheduler.current_cycle) = Some cycle
      /\ ob.(Scheduler.current_user) = Some user
  | _ => True
  end.

(** What the log says of one greenlet: an invocation, a wait inside
    the scenario, a sleep. *)
Inductive act :=
| Inv (cycle x : Z)
| Wt
| Yld.

Definition event_user (e : Scheduler.event) : Z :=
  match e with
  | Scheduler.Invoked user _ _ _ _ => user
  | Scheduler.Waited user _ => user
  | Scheduler.Yielded user _ => user
  end.

Definition event_num (e : Scheduler.event) : Z :=
  match e with
  | Scheduler.Invoked _ num _ _ _ => num
  | Scheduler.Waited _ num => num
  | Scheduler.Yielded _ num => num
  end.

Definition act_of (e : Scheduler.event) : act :=
  match e with
  | Scheduler.Invoked _ _ cycle x _ => Inv cycle x
  | Scheduler.Waited _ _ => Wt
  | Scheduler.Yielded _ _ => Yld
  end.

(** The log as greenlet [n] lived it. *)
Definition view (n : Z) (evs : list Scheduler.event) : list act :=
  map act_of (List.filter (fun e => bool_decide (event_num e = n)) evs).

Lemma view_app n evs evs' : view n (evs ++ evs') = view n evs ++ view n evs'.
Proof. unfold view. by rewrite List.filter_app, map_app. Qed.

Lemma view_other n evs :
  Forall (fun e => event_num e <> n) evs -> view n evs = [].
Proof.
  unfold view. induction 1 as [|e evs He _ IH]; simpl; [done|].
  by rewrite bool_decide_eq_false_2.
Qed.

Lemma view_own n evs :
  Forall (fun e => event_num e = n) evs -> view n evs = map act_of evs.
Proof.
  unfold view. induction 1 as [|e evs He _ IH]; simpl; [done|].
  rewrite bool_decide_eq_true_2 by done. simpl. by rewrite IH.
Qed.

Section SchedulerFacts.
Import Scheduler.

Context {S : Type} (test : TestCase -> S -> S).
Context (waits : Z -> Z -> Z -> Z -> nat).

(** *** One switch into a greenlet *)

Lemma sleeps_with_body g k0 k :
  sleeps waits (with_body g k0) k = sleeps waits g k.
Proof. induction k as [|[c|u|c x|more|] k IH]; simpl; by rewrite ?IH. Qed.

Lemma resume_sleeps g k ob s k' ob1 s1 evs :
  resume S test waits g k ob s = (Some k', ob1, s1, evs) ->
  sleeps waits g k = Datatypes.S (sleeps waits g k').
Proof.
  revert ob s evs.
  induction k as [|[c|u|c x|more|] k IH]; intros ob s evs; simpl.
  - done.
  - apply IH.
  - apply IH.
  - destruct (waits (user g) (num g) c x) as [|more].
    + destruct (resume S test waits g k ob (test ob s))
        as [[[r ob'] s'] evs'] eqn:Hk.
      intros [= -> <- <- <-]. by apply IH in Hk.
    + by intros [= <- <- <- <-].
  - destruct more as [|more]; [apply IH|]. by intros [= <- <- <- <-].
  - by intros [= <- <- <- <-].
Qed.

Lemma switches_app ready ready' :
  switches waits (ready ++ ready')
  = (switches waits ready + switches waits ready')%nat.
Proof.
  induction ready as [|g ready IH]; simpl; [done|].
  rewrite IH. lia.
Qed.

(** *** The hub as a relation

    [runs ready ob s ob' s' evs]: from the queue [ready] the hub runs
    until no greenlet is left, and [evs] is what happened. *)
Inductive runs : list greenlet -> TestCase -> S -> TestCase -> S ->
                 list event -> Prop :=
| runs_idle ob s : runs [] ob s ob s []
| runs_return g ready ob s ob1 s1 evs ob2 s2 evs' :
    resume S test waits g g.(body) ob s = (None, ob1, s1, evs) ->
    runs ready ob1 s1 ob2 s2 evs' ->
    runs (g :: ready) ob s ob2 s2 (evs ++ evs')
| runs_switch g ready k ob s ob1 s1 evs ob2 s2 evs' :
    resume S test waits g g.(body) ob s = (Some k, ob1, s1, evs) ->
    runs (ready ++ [with_body g k]) ob1 s1 ob2 s2 evs' ->
    runs (g :: ready) ob s ob2 s2 (evs ++ evs').

(** With a switch for every sleep and every wait and one more per
    greenlet, the hub gets to the end of the queue. *)
Lemma hub_runs fuel ready ob s :
  (switches waits ready <= fuel)%nat ->
  exists ob' s' evs,
    hub S test waits fuel ready ob s = Some (ob', s', evs)
    /\ runs ready ob s ob' s' evs.
Proof.
  revert ready ob s. induction fuel as [|fuel IH]; intros ready ob s Hfuel.
  - destruct ready as [|g ready]; [|simpl in Hfuel; lia].
    eexists _, _, _. split; [reflexivity|constructor].
  - destruct ready as [|g ready].
    { eexists _, _, _. split; [reflexivity|constructor]. }
    simpl in Hfuel. simpl.
    destruct (resume S test waits g (body g) ob s)
      as [[[[k|] ob1] s1] evs] eqn:Hres.
    + destruct (IH (ready ++ [with_body g k]) ob1 s1)
        as (ob' & s' & evs' & -> & Hruns).
      { rewrite switches_app. simpl. rewrite sleeps_with_body.
        apply resume_sleeps in Hres. lia. }
      eexists _, _, _. split; [reflexivity|].
      eapply runs_switch; eassumption.
    + destruct (IH ready ob1 s1) as (ob' & s' & evs' & -> & Hruns).
      { lia. }
      eexists _, _, _. split; [reflexivity|].
      eapply runs_return; eassumption.
Qed.

Lemma join_runs group ob s :
  exists ob' s' evs,
    join S test waits group ob s = Some (ob', s', evs)
    /\ runs group ob s ob' s' evs.
Proof. apply hub_runs. done. Qed.

(** *** The result object

    The scenario is applied to the result object once per invocation,
    in the order of the log, each time with the test object of the
    event. *)
Definition apply_event (s : S) (e : event) : S :=
  match e with
  | Invoked _ _ _ _ ob => test ob s
  | Waited _ _ => s
  | Yielded _ _ => s
  end.

Lemma resume_state g k ob s r ob1 s1 evs :
  resume S test waits g k ob s = (r, ob1, s1, evs) ->
  s1 = fold_left apply_event evs s.
Proof.
  revert ob s evs.
  induction k as [|[c|u|c x|more|] k IH]; intros ob s evs; simpl.
  - by intros [= <- <- <- <-].
  - apply IH.
  - apply IH.
  - destruct (waits (user g) (num g) c x) as [|more].
    + destruct (resume S test waits g k ob (test ob s))
        as [[[r' ob'] s'] evs'] eqn:Hk.
      intros [= <- <- <- <-]. simpl. by apply IH in Hk.
    + by intros [= <- <- <- <-].
  - destruct more as [|more]; [apply IH|]. by intros [= <- <- <- <-].
  - by intros [= <- <- <- <-].
Qed.

Lemma runs_state ready ob s ob' s' evs :
  runs ready ob s ob' s' evs -> s' = fold_left apply_event evs s.
Proof.
  induction 1 as [|g ready ob s ob1 s1 evs ob2 s2 evs' Hres _ IH
                  |g ready k ob s ob1 s1 evs ob2 s2 evs' Hres _ IH].
  - done.
  - apply resume_state in Hres. by rewrite fold_left_app, <- Hres.
  - apply resume_state in Hres. by rewrite fold_left_app, <- Hres.
Qed.

(** *** How many invocations *)

Fixpoint invokes (k : list step) : nat :=
  match k with
  | [] => 0
  | Invoke _ _ :: k' => Datatypes.S (invokes k')
  | _ :: k' => invokes k'
  end.

Fixpoint pending (ready : list greenlet) : nat :=
  match ready with
  | [] => 0
  | g :: ready' => (invokes g.(body) + pending ready')%nat
  end.

Lemma invocations_app evs evs' :
  invocations (evs ++ evs') = invocations evs ++ invocations evs'.
Proof. apply List.filter_app. Qed.

(** A stretch of a greenlet makes the invocations that its body holds
    and the rest of its body no longer does, waits or no waits. *)
Lemma resume_invokes g k ob s r ob1 s1 evs :
  resume S test waits g k ob s = (r, ob1, s1, evs) ->
  (length (invocations evs) + invokes (default [] r))%nat = invokes k.
Proof.
  revert ob s evs.
  induction k as [|[c|u|c x|more|] k IH]; intros ob s evs; simpl.
  - by intros [= <- <- <- <-].
  - apply IH.
  - apply IH.
  - destruct (waits (user g) (num g) c x) as [|more].
    + destruct (resume S test waits g k ob (test ob s))
        as [[[r' ob'] s'] evs'] eqn:Hk.
      intros [= <- <- <- <-]. simpl. apply IH in Hk. lia.
    + by intros [= <- <- <- <-].
  - destruct more as [|more]; [apply IH|]. by intros [= <- <- <- <-].
  - by intros [= <- <- <- <-].
Qed.

Lemma pending_app ready ready' :
  pending (ready ++ ready') = (pending ready + pending ready')%nat.
Proof.
  induction ready as [|g ready IH]; simpl; [done|]. rewrite IH. lia.
Qed.

Lemma runs_invocations ready ob s ob' s' evs :
  runs ready ob s ob' s' evs ->
  length (invocations evs) = pending ready.
Proof.
  induction 1 as [|g ready ob s ob1 s1 evs ob2 s2 evs' Hres _ IH
                  |g ready k ob s ob1 s1 evs ob2 s2 evs' Hres _ IH].
  - done.
  - apply resume_invokes in Hres. simpl in *.
    rewrite invocations_app, length_app, IH. lia.
  - apply resume_invokes in Hres. simpl in *.
    rewrite invocations_app, length_app, IH, pending_app. simpl. lia.
Qed.

(** *** The body of [_run] *)

Definition loop_body (cycle : Z) (xs : list Z) : list step :=
  flat_map (fun x => [Invoke cycle x; Sleep0]) xs.

Lemma run_cons num cycle cycles u :
  _run num (cycle :: cycles) u
  = SetCurrentCycle cycle :: SetCurrentUser u
    :: loop_body cycle (range cycle) ++ _run num cycles u.
Proof. reflexivity. Qed.

Lemma invokes_loop_app cycle xs k :
  invokes (loop_body cycle xs ++ k) = (length xs + invokes k)%nat.
Proof. induction xs as [|x xs IH]; simpl; [done|]. by rewrite IH. Qed.

Lemma length_range n : length (range n) = Z.to_nat n.
Proof. unfold range. by rewrite length_map, length_seq. Qed.

Lemma invokes_run num cycles u :
  Z.of_nat (invokes (_run num cycles u)) = sum (map (Z.max 0) cycles).
Proof.
  induction cycles as [|cycle cycles IH]; [done|].
  rewrite run_cons. simpl. rewrite invokes_loop_app, length_range.
  rewrite sum_cons, <- IH. lia.
Qed.

(** The greenlets of a tier run the same body. *)
Definition cohort (u : Z) (k : list step) (ns : list Z) : list greenlet :=
  map (fun n => {| num := n; user := u; body := k |}) ns.

Lemma spawn_all_cohort cycles u :
  spawn_all cycles u = cohort u (_run 0 cycles u) (range u).
Proof. reflexivity. Qed.

Lemma pending_cohort u k ns :
  pending (cohort u k ns) = (length ns * invokes k)%nat.
Proof. induction ns as [|n ns IH]; simpl; [done|]. by rewrite IH. Qed.

(** *** The tiers, one after the other *)

(** Whatever the scenario does and however often it waits, the tiers
    all return, the result object is what the invocations of the log
    make of it, and a tier of [u] makes [u] times the invocations of
    one body. *)
Lemma tiers_returns users cycles ob s :
  exists ob' s' evs,
    tiers S test waits users cycles ob s = Some (ob', s', evs)
    /\ s' = fold_left apply_event evs s
    /\ Z.of_nat (length (invocations evs))
       = sum (map (fun u => Z.max 0 u * sum (map (Z.max 0) cycles)) users).
Proof.
  revert ob s. induction users as [|u users IH]; intros ob s; simpl.
  - by exists ob, s, [].
  - destruct (join_runs (spawn_all cycles u) ob s)
      as (ob1 & s1 & evs1 & -> & Hruns).
    simpl. destruct (IH ob1 s1) as (ob2 & s2 & evs2 & -> & Hs & Hn). simpl.
    eexists _, _, _. split; [reflexivity|].
    pose proof (runs_state _ _ _ _ _ _ Hruns) as Hs1.
    apply runs_invocations in Hruns.
    rewrite spawn_all_cohort, pending_cohort, length_range in Hruns.
    split.
    + by rewrite fold_left_app, <- Hs1.
    + rewrite invocations_app, length_app, sum_cons, <- Hn.
      rewrite Nat2Z.inj_add, Hruns, Nat2Z.inj_mul, invokes_run. lia.
Qed.

(** *** What every greenlet does, waits or no waits *)

(** What is left for a greenlet to do, by its body. *)
Fixpoint acts (g : greenlet) (k : list step) : list act :=
  match k with
  | [] => []
  | Invoke cycle x :: k' =>
      Inv cycle x :: repeat Wt (waits g.(user) g.(num) cycle x) ++ acts g k'
  | Waiting more :: k' => repeat Wt more ++ acts g k'
  | Sleep0 :: k' => Yld :: acts g k'
  | _ :: k' => acts g k'
  end.

Lemma acts_with_body g k0 k : acts (with_body g k0) k = acts g k.
Proof. induction k as [|[c|u|c x|more|] k IH]; simpl; by rewrite ?IH. Qed.

Lemma acts_app g k k' : acts g (k ++ k') = acts g k ++ acts g k'.
Proof.
  induction k as [|[c|u|c x|more|] k IH]; simpl; rewrite ?IH; try done.
  - by rewrite app_assoc.
  - by rewrite app_assoc.
Qed.

Lemma resume_own g k ob s r ob1 s1 evs :
  resume S test waits g k ob s = (r, ob1, s1, evs) ->
  Forall (fun e => event_user e = g.(user) /\ event_num e = g.(num)) evs.
Proof.
  revert ob s evs.
  induction k as [|[c|u|c x|more|] k IH]; intros ob s evs; simpl.
  - by intros [= <- <- <- <-].
  - apply IH.
  - apply IH.
  - destruct (waits (user g) (num g) c x) as [|more].
    + destruct (resume S test waits g k ob (test ob s))
        as [[[r' ob'] s'] evs'] eqn:Hk.
      intros [= <- <- <- <-]. constructor; [done|]. by apply IH in Hk.
    + intros [= <- <- <- <-]. by repeat constructor.
  - destruct more as [|more]; [apply IH|].
    intros [= <- <- <- <-]. by repeat constructor.
  - intros [= <- <- <- <-]. by repeat constructor.
Qed.

Lemma resume_acts g k ob s r ob1 s1 evs :
  resume S test waits g k ob s = (r, ob1, s1, evs) ->
  map act_of evs ++ acts g (default [] r) = acts g k.
Proof.
  revert ob s evs.
  induction k as [|[c|u|c x|more|] k IH]; intros ob s evs; simpl.
  - by intros [= <- <- <- <-].
  - apply IH.
  - apply IH.
  - destruct (waits (user g) (num g) c x) as [|more].
    + destruct (resume S test waits g k ob (test ob s))
        as [[[r' ob'] s'] evs'] eqn:Hk.
      intros [= <- <- <- <-]. simpl. f_equal. by apply IH in Hk.
    + by intros [= <- <- <- <-].
  - destruct more as [|more]; [apply IH|]. by intros [= <- <- <- <-].
  - by intros [= <- <- <- <-].
Qed.

Lemma resume_view g k ob s r ob1 s1 evs :
  resume S test waits g k ob s = (r, ob1, s1, evs) ->
  view g.(num) evs ++ acts g (default [] r) = acts g k.
Proof.
  intros Hres. rewrite view_own; [by eapply resume_acts|].
  eapply Forall_impl; [by eapply resume_own|]. by intros e [_ ?].
Qed.

Lemma runs_from ready ob s ob' s' evs :
  runs ready ob s ob' s' evs ->
  Forall (fun e => exists g, g ∈ ready /\ event_user e = g.(user)
                             /\ event_num e = g.(num)) evs.
Proof.
  induction 1 as [|g ready ob s ob1 s1 evs ob2 s2 evs' Hres _ IH
                  |g ready k ob s ob1 s1 evs ob2 s2 evs' Hres _ IH].
  - constructor.
  - apply resume_own in Hres. apply Forall_app. split.
    + eapply Forall_impl; [exact Hres|]. intros e He. exists g.
      split; [left|done].
    + eapply Forall_impl; [exact IH|]. intros e (h & Hh & He).
      exists h. split; [by right|done].
  - apply resume_own in Hres. apply Forall_app. split.
    + eapply Forall_impl; [exact Hres|]. intros e He. exists g.
      split; [left|done].
    + eapply Forall_impl; [exact IH|]. intros e (h & Hh & He).
      apply elem_of_app in Hh as [Hh|Hh].
      * exists h. split; [by right|done].
      * apply list_elem_of_singleton in Hh as ->. exists g.
        split; [left|done].
Qed.

(** Each greenlet of the queue gets through the whole of its body, in
    the order of its body. *)
Lemma runs_view ready ob s ob' s' evs :
  runs ready ob s ob' s' evs ->
  NoDup (num <$> ready) ->
  forall g, g ∈ ready -> view g.(num) evs = acts g g.(body).
Proof.
  induction 1 as [|g ready ob s ob1 s1 evs ob2 s2 evs' Hres Hruns IH
                  |g ready k ob s ob1 s1 evs ob2 s2 evs' Hres Hruns IH];
    intros Hnd h Hh.
  - by apply elem_of_nil in Hh.
  - pose proof (resume_own _ _ _ _ _ _ _ _ Hres) as Hown.
    apply resume_view in Hres.
    rewrite fmap_cons in Hnd. apply NoDup_cons in Hnd as [Hg Hnd].
    rewrite view_app. apply elem_of_cons in Hh as [->|Hh].
    + simpl in Hres. rewrite app_nil_r in Hres. rewrite Hres.
      rewrite view_other; [by rewrite app_nil_r|].
      eapply Forall_impl; [exact (runs_from _ _ _ _ _ _ Hruns)|].
      intros e (h & Hh & _ & ->) Heq. apply Hg.
      rewrite <- Heq. by apply list_elem_of_fmap_2.
    + rewrite (IH Hnd h Hh). rewrite view_other; [done|].
      eapply Forall_impl; [exact Hown|]. intros e [_ ->] Heq.
      apply Hg. rewrite Heq. by apply list_elem_of_fmap_2.
  - pose proof (resume_own _ _ _ _ _ _ _ _ Hres) as Hown.
    apply resume_view in Hres.
    rewrite fmap_cons in Hnd. pose proof Hnd as Hnd0.
    apply NoDup_cons in Hnd as [Hg Hnd].
    assert (NoDup (num <$> ready ++ [with_body g k])) as Hnd'.
    { rewrite fmap_app. simpl. eapply NoDup_Permutation_proper; [|exact Hnd0].
      symmetry. apply Permutation_cons_append. }
    rewrite view_app. apply elem_of_cons in Hh as [->|Hh].
    + simpl in Hres. rewrite <- Hres. f_equal.
      rewrite <- (acts_with_body g k k).
      apply (IH Hnd' (with_body g k)). apply elem_of_app. right.
      by apply list_elem_of_singleton.
    + rewrite (IH Hnd' h) by (apply elem_of_app; by left).
      rewrite view_other; [done|].
      eapply Forall_impl; [exact Hown|]. intros e [_ ->] Heq.
      apply Hg. rewrite Heq. by apply list_elem_of_fmap_2.
Qed.

(** What greenlet [n] of the tier of [u] does from its spawn to its
    return: for each cycle size in order, [cycle] times, an invocation,
    the waits of that invocation, and the sleep. *)
Definition script (u n : Z) (cycles : list Z) : list act :=
  flat_map (fun cycle =>
    flat_map (fun x => Inv cycle x :: repeat Wt (waits u n cycle x) ++ [Yld])
             (range cycle))
    cycles.

Lemma acts_run g cycles :
  acts g (_run g.(num) cycles g.(user)) = script g.(user) g.(num) cycles.
Proof.
  unfold script. induction cycles as [|cycle cycles IH]; [done|].
  rewrite run_cons. simpl. rewrite acts_app, IH. f_equal.
  unfold loop_body. induction (range cycle) as [|x xs IHx]; simpl; [done|].
  by rewrite IHx, <- app_assoc.
Qed.

Lemma cohort_nums u k ns : num <$> cohort u k ns = ns.
Proof.
  induction ns as [|n ns IH]; [done|].
  change (n :: (num <$> cohort u k ns) = n :: ns). by rewrite IH.
Qed.

Lemma elem_of_range i n : i ∈ range n <-> 0 <= i < n.
Proof.
  unfold range. rewrite list_elem_of_fmap. split.
  - intros (j & -> & Hj). apply elem_of_seq in Hj. lia.
  - intros Hi. exists (Z.to_nat i). split; [lia|]. apply elem_of_seq. lia.
Qed.

Lemma NoDup_range n : NoDup (range n).
Proof.
  unfold range. apply (NoDup_fmap_2 Z.of_nat). apply NoDup_seq.
Qed.

(** The log of a tier of [u] users over the cycles [cycles]: its events
    are those of the greenlets 0 .. [u - 1] of the tier, and each of
    them has gone through its whole script, in order. *)
Definition tier_log (cycles : list Z) (u : Z) (evs : list event) : Prop :=
  Forall (fun e => event_user e = u /\ 0 <= event_num e < u) evs
  /\ forall n, 0 <= n < u -> view n evs = script u n cycles.

Lemma join_tier cycles u ob s :
  exists ob' s' evs,
    join S test waits (spawn_all cycles u) ob s = Some (ob', s', evs)
    /\ tier_log cycles u evs.
Proof.
  destruct (join_runs (spawn_all cycles u) ob s)
    as (ob' & s' & evs & Hjoin & Hruns).
  exists ob', s', evs. split; [exact Hjoin|].
  rewrite spawn_all_cohort in Hruns. split.
  - eapply Forall_impl; [exact (runs_from _ _ _ _ _ _ Hruns)|].
    intros e (g & Hg & -> & ->).
    apply list_elem_of_fmap in Hg as (i & -> & Hi). simpl.
    by apply elem_of_range in Hi.
  - intros n Hn.
    set (g := {| num := n; user := u; body := _run 0 cycles u |}).
    change (script u n cycles) with (script g.(user) g.(num) cycles).
    rewrite <- acts_run.
    apply (runs_view _ _ _ _ _ _ Hruns) with (g := g).
    + rewrite cohort_nums. apply NoDup_range.
    + apply list_elem_of_fmap. exists n. split; [done|].
      by apply elem_of_range.
Qed.

Lemma tiers_logs users cycles ob s :
  exists ob' s' evs logs,
    tiers S test waits users cycles ob s = Some (ob', s', evs)
    /\ evs = concat logs
    /\ Forall2 (tier_log cycles) users logs.
Proof.
  revert ob s. induction users as [|u users IH]; intros ob s; simpl.
  - exists ob, s, [], []. split; [done|]. split; [done|]. constructor.
  - destruct (join_tier cycles u ob s) as (ob1 & s1 & evs & -> & Htier).
    simpl. destruct (IH ob1 s1) as (ob2 & s2 & evs' & logs & -> & -> & Hlogs).
    simpl. exists ob2, s2, (evs ++ concat logs), (evs :: logs).
    split; [done|]. split; [done|]. by constructor.
Qed.

(** Whatever the scenario does and however often its invocations wait,
    a local run whose specs parse returns, and its log is the logs of
    the tiers one after the other, in the order of the users spec: the
    greenlets of a tier have all returned before the first event of the
    next (the join); and in the log of the tier of [u] each of the
    greenlets 0 .. [u - 1] has, for each cycle size [c] in the order of
    the cycles spec, [c] times invoked the scenario, waited as often as
    that invocation waits, and then slept. *)
Theorem run_each_greenlet_in_order (args : Workload.Args) (us cs : list Z)
    (ob : TestCase) (s : S) :
  Workload.int_list args.(Workload.users) = Ok us ->
  Workload.int_list args.(Workload.cycles) = Ok cs ->
  exists ob' s' evs logs,
    run S test waits args ob s = Ok (Some (ob', s', evs))
    /\ evs = concat logs
    /\ Forall2 (fun u log =>
                  Forall (fun e => event_user e = u /\ 0 <= event_num e < u)
                         log
                  /\ forall n, 0 <= n < u -> view n log = script u n cs)
               us logs.
Proof.
  intros Hu Hc. unfold run.
  rewrite (compute_accepts args us cs Hu Hc). simpl.
  destruct (tiers_logs us cs ob s) as (ob' & s' & evs & logs & -> & He & Hl).
  by exists ob', s', evs, logs.
Qed.

Lemma sum_max_positive (l : list Z) :
  Forall (fun x => 1 <= x) l -> map (Z.max 0) l = l.
Proof.
  induction 1 as [|x l Hx _ IH]; simpl; [done|]. rewrite IH. f_equal. lia.
Qed.

Lemma sum_tiers_positive (us cs : list Z) :
  Forall (fun u => 1 <= u) us -> Forall (fun c => 1 <= c) cs ->
  sum (map (fun u => Z.max 0 u * sum (map (Z.max 0) cs)) us)
  = sum (map (fun u => u * sum cs) us).
Proof.
  intros Hus Hcs. rewrite (sum_max_positive cs Hcs). f_equal.
  induction Hus as [|u us Hu _ IH]; simpl; [done|].
  rewrite IH. f_equal. lia.
Qed.

(** A local run (no agent count) over positive users and cycles makes
    exactly as many invocations as [_compute] expects. *)
Theorem run_invocations_expected_total (args : Workload.Args)
    (us cs : list Z) (ob : TestCase) (s : S) :
  Workload.int_list args.(Workload.users) = Ok us ->
  Workload.int_list args.(Workload.cycles) = Ok cs ->
  args.(Workload.agents) = None ->
  Forall (fun u => 1 <= u) us ->
  Forall (fun c => 1 <= c) cs ->
  exists total ob' s' evs,
    Workload._compute args = Ok (total, cs, us, None)
    /\ run S test waits args ob s = Ok (Some (ob', s', evs))
    /\ Z.of_nat (length (invocations evs)) = total.
Proof.
  intros Hu Hc Ha Hus Hcs.
  pose proof (compute_accepts args us cs Hu Hc) as Hcompute.
  rewrite Ha in Hcompute.
  destruct (tiers_returns us cs ob s) as (ob' & s' & evs & Ht & _ & Hn).
  eexists _, ob', s', evs. split; [exact Hcompute|]. split.
  - unfold run. rewrite Hcompute. simpl. by rewrite Ht.
  - rewrite Hn, (sum_tiers_positive us cs Hus Hcs).
    unfold Workload.expected_total. simpl default. lia.
Qed.

(** A value of 0 or less in either spec spawns nothing and loops over
    nothing: whatever integers the specs hold, a local run makes
    [max 0 u * (sum over the cycle sizes c of max 0 c)] invocations in
    the tier of [u], which is the total of [_compute] only when no value
    is negative. *)
Theorem run_invocations_clamped (args : Workload.Args) (us cs : list Z)
    (ob : TestCase) (s : S) :
  Workload.int_list args.(Workload.users) = Ok us ->
  Workload.int_list args.(Workload.cycles) = Ok cs ->
  exists ob' s' evs,
    run S test waits args ob s = Ok (Some (ob', s', evs))
    /\ Z.of_nat (length (invocations evs))
       = sum (map (fun u => Z.max 0 u * sum (map (Z.max 0) cs)) us).
Proof.
  intros Hu Hc. unfold run.
  rewrite (compute_accepts args us cs Hu Hc). simpl.
  destruct (tiers_returns us cs ob s) as (ob' & s' & evs & Ht & _ & Hn).
  exists ob', s', evs. by rewrite Ht.
Qed.

(** *** When no invocation waits

    What is left of a body after its next switch, the test object then
    and the events of the stretch, for a greenlet that only switches
    where it sleeps. *)
Fixpoint rest (k : list step) : option (list step) :=
  match k with
  | [] => None
  | Sleep0 :: k' => Some k'
  | _ :: k' => rest k'
  end.

Fixpoint after (k : list step) (ob : TestCase) : TestCase :=
  match k with
  | [] => ob
  | SetCurrentCycle cycle :: k' =>
      after k' {| current_cycle := Some cycle;
                  current_user := ob.(current_user) |}
  | SetCurrentUser user :: k' =>
      after k' {| current_cycle := ob.(current_cycle);
                  current_user := Some user |}
  | Invoke _ _ :: k' => after k' ob
  | Waiting _ :: k' => after k' ob
  | Sleep0 :: _ => ob
  end.

Fixpoint seen (g : greenlet) (k : list step) (ob : TestCase) : list event :=
  match k with
  | [] => []
  | SetCurrentCycle cycle :: k' =>
      seen g k' {| current_cycle := Some cycle;
                   current_user := ob.(current_user) |}
  | SetCurrentUser user :: k' =>
      seen g k' {| current_cycle := ob.(current_cycle);
                   current_user := Some user |}
  | Invoke cycle x :: k' => Invoked g.(user) g.(num) cycle x ob :: seen g k' ob
  | Waiting _ :: k' => seen g k' ob
  | Sleep0 :: _ => [Yielded g.(user) g.(num)]
  end.

(** In a body of [_run] every invocation is followed by a sleep, and
    no greenlet stands inside the scenario. *)
Fixpoint shape (k : list step) : Prop :=
  match k with
  | [] => True
  | Invoke _ _ :: k' =>
      match k' with
      | Sleep0 :: _ => shape k'
      | _ => False
      end
  | Waiting _ :: _ => False
  | _ :: k' => shape k'
  end.

Lemma shape_rest k k' : shape k -> rest k = Some k' -> shape k'.
Proof.
  induction k as [|[c|u|c x|more|] k IH]; simpl.
  - done.
  - apply IH.
  - apply IH.
  - destruct k as [|[] k]; simpl; done.
  - done.
  - by intros ? [= ->].
Qed.

Lemma rest_shorter k k' : rest k = Some k' -> (length k' < length k)%nat.
Proof.
  induction k as [|[c|u|c x|more|] k IH]; simpl; try done;
    try (intros H; apply IH in H; lia).
  intros [= ->]. lia.
Qed.

(** [good u ob k]: run on its own from the test object [ob], the body
    [k] of a greenlet of tier [u] makes every invocation with the test
    object carrying the cycle of its loop and [u]. *)
Fixpoint good (u : Z) (ob : TestCase) (k : list step) : Prop :=
  match k with
  | [] => True
  | SetCurrentCycle cycle :: k' =>
      good u {| current_cycle := Some cycle;
                current_user := ob.(current_user) |} k'
  | SetCurrentUser user :: k' =>
      good u {| current_cycle := ob.(current_cycle);
                current_user := Some user |} k'
  | Invoke cycle _ :: k' =>
      ob.(current_cycle) = Some cycle /\ ob.(current_user) = Some u
      /\ good u ob k'
  | Waiting _ :: k' => good u ob k'
  | Sleep0 :: k' => good u ob k'
  end.

Lemma good_rest u k k' ob :
  good u ob k -> rest k = Some k' -> good u (after k ob) k'.
Proof.
  revert ob. induction k as [|[c|v|c x|more|] k IH]; intros ob; simpl.
  - done.
  - apply IH.
  - apply IH.
  - intros (_ & _ & Hk). by apply IH.
  - apply IH.
  - by intros ? [= ->].
Qed.

(** Another greenlet that runs the same stretch first does no harm: the
    writes it makes are the ones this greenlet starts with. *)
Lemma good_again_gen u k ob ob2 :
  shape k -> good u ob k ->
  (ob2.(current_cycle) = ob.(current_cycle)
   \/ ob2.(current_cycle) = (after k ob).(current_cycle)) ->
  (ob2.(current_user) = ob.(current_user)
   \/ ob2.(current_user) = (after k ob).(current_user)) ->
  good u ob2 k.
Proof.
  revert ob ob2. induction k as [|[c|v|c x|more|] k IH]; intros ob ob2; simpl;
    try done.
  - intros Hs Hg Hc Hu. eapply IH; [done|exact Hg|simpl; auto|simpl].
    destruct Hu as [->|Hu]; auto.
  - intros Hs Hg Hc Hu. eapply IH; [done|exact Hg|simpl|simpl; auto].
    destruct Hc as [->|Hc]; auto.
  - destruct k as [|[] k]; try done. simpl.
    intros Hs (Hc & Hu & Hk) Hc2 Hu2.
    assert (ob2 = ob) as ->; [|done].
    destruct ob, ob2; simpl in *. f_equal; intuition congruence.
  - intros Hs Hk Hc2 Hu2.
    assert (ob2 = ob) as ->; [|done].
    destruct ob, ob2; simpl in *. f_equal; intuition congruence.
Qed.

Lemma good_again u k ob :
  shape k -> good u ob k -> good u (after k ob) k.
Proof. intros Hs Hg. eapply good_again_gen; eauto. Qed.

Lemma shape_loop_app cycle xs k : shape k -> shape (loop_body cycle xs ++ k).
Proof. intros Hk. induction xs as [|x xs IH]; simpl; done. Qed.

Lemma shape_run num cycles u : shape (_run num cycles u).
Proof.
  induction cycles as [|cycle cycles IH]; [done|].
  rewrite run_cons. simpl. by apply shape_loop_app.
Qed.

Lemma good_loop_app u cycle xs k ob :
  ob.(current_cycle) = Some cycle -> ob.(current_user) = Some u ->
  good u ob k -> good u ob (loop_body cycle xs ++ k).
Proof. intros Hc Hu Hk. induction xs as [|x xs IH]; simpl; done. Qed.

Lemma good_run num cycles u ob : good u ob (_run num cycles u).
Proof.
  revert ob. induction cycles as [|cycle cycles IH]; intros ob; [done|].
  rewrite run_cons. simpl. by apply good_loop_app.
Qed.

(** The event of an act of greenlet [n] of tier [u], with the test
    object as [_run] has set it. *)
Definition stamp (u n : Z) (a : act) : event :=
  match a with
  | Inv cycle x =>
      Invoked u n cycle x {| current_cycle := Some cycle;
                             current_user := Some u |}
  | Wt => Waited u n
  | Yld => Yielded u n
  end.

(** The acts of a body up to its next switch. *)
Fixpoint first_acts (k : list step) : list act :=
  match k with
  | [] => []
  | Invoke cycle x :: k' => Inv cycle x :: first_acts k'
  | Sleep0 :: _ => [Yld]
  | _ :: k' => first_acts k'
  end.

(** The acts of a body, cut at every switch. *)
Fixpoint chunks (cur : list act) (k : list step) : list (list act) :=
  match k with
  | [] => [cur]
  | Invoke cycle x :: k' => chunks (cur ++ [Inv cycle x]) k'
  | Sleep0 :: k' => (cur ++ [Yld]) :: chunks [] k'
  | _ :: k' => chunks cur k'
  end.

Lemma chunks_first cur k :
  chunks cur k
  = (cur ++ first_acts k)
    :: match rest k with
       | Some k' => chunks [] k'
       | None => []
       end.
Proof.
  revert cur. induction k as [|[c|u|c x|more|] k IH]; intros cur; simpl.
  - by rewrite app_nil_r.
  - apply IH.
  - apply IH.
  - by rewrite IH, <- app_assoc.
  - apply IH.
  - done.
Qed.

Lemma good_seen_stamp g k ob :
  good g.(user) ob k ->
  seen g k ob = map (stamp g.(user) g.(num)) (first_acts k).
Proof.
  revert ob. induction k as [|[c|u|c x|more|] k IH]; intros ob; simpl.
  - done.
  - apply IH.
  - apply IH.
  - intros (Hc & Hu & Hk). rewrite (IH ob Hk). f_equal.
    destruct ob; simpl in *. by subst.
  - apply IH.
  - done.
Qed.

(** The test object after each greenlet of [ns] has run the stretch. *)
Fixpoint after_all (k : list step) (ns : list Z) (ob : TestCase) : TestCase :=
  match ns with
  | [] => ob
  | _ :: ns' => after_all k ns' (after k ob)
  end.

Lemma good_after_all u k k' ns ob :
  shape k -> good u ob k -> ns <> [] -> rest k = Some k' ->
  good u (after_all k ns ob) k'.
Proof.
  intros Hs. revert ob. induction ns as [|n ns IH]; intros ob Hg Hne Hr;
    [done|]. simpl. destruct ns as [|n' ns].
  - simpl. by apply good_rest.
  - apply IH; [by apply good_again|done|done].
Qed.

Definition rounds (u : Z) (ns : list Z) (k : list step) : list event :=
  flat_map (fun ch => flat_map (fun n => map (stamp u n) ch) ns) (chunks [] k).

Lemma chunks_loop_app cycle xs k :
  chunks [] (loop_body cycle xs ++ k)
  = map (fun x => [Inv cycle x; Yld]) xs ++ chunks [] k.
Proof. induction xs as [|x xs IH]; simpl; [done|]. by rewrite IH. Qed.

Lemma chunks_run num cycles u :
  chunks [] (_run num cycles u)
  = flat_map (fun cycle => map (fun x => [Inv cycle x; Yld]) (range cycle))
             cycles ++ [[]].
Proof.
  induction cycles as [|cycle cycles IH]; [done|].
  rewrite run_cons. simpl. by rewrite chunks_loop_app, IH, <- app_assoc.
Qed.

(** The log of a tier in which the greenlets stay in step: for each
    cycle size in order and each iteration of it, every greenlet of the
    tier in the order it was spawned makes its invocation, the test
    object carrying that cycle size and the tier, and switches. *)
Definition round_robin (cycles : list Z) (u : Z) : list event :=
  flat_map (fun cycle =>
    flat_map (fun x =>
      flat_map (fun n =>
        [Invoked u n cycle x {| current_cycle := Some cycle;
                                current_user := Some u |};
         Yielded u n])
        (range u))
      (range cycle))
    cycles.

Lemma round_robin_matched cycles u : Forall matched (round_robin cycles u).
Proof.
  unfold round_robin. rewrite Forall_forall. intros e He.
  apply list_elem_of_In, in_flat_map in He as (cycle & _ & He).
  apply in_flat_map in He as (x & _ & He).
  apply in_flat_map in He as (n & _ & He).
  destruct He as [<-|[<-|[]]]; done.
Qed.

Lemma rounds_run num cycles u :
  rounds u (range u) (_run num cycles u) = round_robin cycles u.
Proof.
  unfold rounds, round_robin. rewrite chunks_run, flat_map_app.
  replace (flat_map (fun ch => flat_map (fun n => map (stamp u n) ch) (range u))
                    [[]])
    with (@nil event)
    by (simpl; rewrite app_nil_r; induction (range u); simpl; done).
  rewrite app_nil_r.
  induction cycles as [|cycle cycles IH]; simpl; [done|].
  rewrite flat_map_app, IH. f_equal.
  induction (range cycle) as [|x xs IHx]; simpl; [done|]. by rewrite IHx.
Qed.

Section Quiet.

(** No invocation waits: the scenario returns without a switch. *)
Hypothesis quiet : forall u n cycle x, waits u n cycle x = 0%nat.

Lemma resume_seen g k ob s :
  shape k ->
  exists s', resume S test waits g k ob s = (rest k, after k ob, s', seen g k ob).
Proof.
  revert ob s. induction k as [|[c|u|c x|more|] k IH]; intros ob s; simpl.
  - by eexists.
  - apply IH.
  - apply IH.
  - rewrite quiet. intros Hs.
    assert (shape k) as Hk by (destruct k as [|[] k]; done).
    destruct (IH ob (test ob s) Hk) as (s' & ->). by eexists.
  - done.
  - by eexists.
Qed.

Lemma resume_inv g k ob s r ob1 s1 evs :
  shape k ->
  resume S test waits g k ob s = (r, ob1, s1, evs) ->
  r = rest k /\ ob1 = after k ob /\ evs = seen g k ob.
Proof.
  intros Hs. destruct (resume_seen g k ob s Hs) as (s' & ->).
  by intros [= <- <- <- <-].
Qed.

(** One turn of the queue: every greenlet of the cohort in front runs
    its stretch and goes to the back with the rest of its body. *)
Lemma runs_round u k front Q ob s ob' s' evs :
  shape k -> good u ob k ->
  runs (cohort u k front ++ Q) ob s ob' s' evs ->
  exists s1 evs1,
    evs = flat_map (fun n => map (stamp u n) (first_acts k)) front ++ evs1
    /\ runs (Q ++ match rest k with
                  | Some k' => cohort u k' front
                  | None => []
                  end)
            (after_all k front ob) s1 ob' s' evs1.
Proof.
  intros Hs. revert Q ob s evs.
  induction front as [|n front IH]; intros Q ob s evs Hg Hruns.
  - exists s, evs. simpl in *. split; [done|].
    destruct (rest k); by rewrite app_nil_r.
  - simpl in Hruns.
    inversion Hruns as [|g ready ob0 s0 ob1 s1 evs0 ob2 s2 evs' Hres Hrest
                        |g ready k1 ob0 s0 ob1 s1 evs0 ob2 s2 evs' Hres Hrest];
      subst; simpl in Hres;
      apply (resume_inv _ _ _ _ _ _ _ _ Hs) in Hres as (Hr & -> & ->);
      rewrite (good_seen_stamp {| num := n; user := u; body := k |} k ob Hg);
      simpl.
    + destruct (IH Q (after k ob) s1 evs' (good_again u k ob Hs Hg) Hrest)
        as (s3 & evs1 & -> & Hruns1).
      exists s3, evs1. rewrite <- Hr in *. rewrite <- app_assoc.
      split; [done|exact Hruns1].
    + rewrite <- app_assoc in Hrest.
      destruct (IH (Q ++ [with_body {| num := n; user := u; body := k |} k1])
                   (after k ob) s1 evs' (good_again u k ob Hs Hg) Hrest)
        as (s3 & evs1 & -> & Hruns1).
      exists s3, evs1. rewrite <- Hr in *. rewrite <- app_assoc.
      split; [done|]. by rewrite <- app_assoc in Hruns1.
Qed.

(** The greenlets of a tier stay in step: the log is the body's
    stretches in order, each run by every greenlet in turn. *)
Lemma cohort_rounds u ns m k ob s ob' s' evs :
  (length k <= m)%nat -> shape k -> good u ob k -> ns <> [] ->
  runs (cohort u k ns) ob s ob' s' evs ->
  evs = rounds u ns k.
Proof.
  revert k ob s evs. induction m as [|m IH]; intros k ob s evs Hm Hs Hg Hne Hruns;
    rewrite <- (app_nil_r (cohort u k ns)) in Hruns;
    apply (runs_round u k ns [] ob s ob' s' evs Hs Hg) in Hruns
      as (s1 & evs1 & -> & Hruns);
    unfold rounds; rewrite chunks_first; simpl in *;
    destruct (rest k) as [k'|] eqn:Hr.
  - apply rest_shorter in Hr. lia.
  - inversion Hruns; subst. by rewrite !app_nil_r.
  - f_equal. apply (IH k' (after_all k ns ob) s1 evs1).
    + apply rest_shorter in Hr. lia.
    + by eapply shape_rest.
    + by apply good_after_all.
    + done.
    + done.
  - inversion Hruns; subst. by rewrite !app_nil_r.
Qed.

Lemma join_round_robin cycles u ob s :
  exists ob' s' evs,
    join S test waits (spawn_all cycles u) ob s = Some (ob', s', evs)
    /\ evs = round_robin cycles u
    /\ s' = fold_left apply_event evs s.
Proof.
  destruct (join_runs (spawn_all cycles u) ob s)
    as (ob' & s' & evs & Hjoin & Hruns).
  exists ob', s', evs. split; [exact Hjoin|].
  split; [|by eapply runs_state].
  rewrite spawn_all_cohort in Hruns.
  rewrite <- (rounds_run 0 cycles u).
  destruct (range u) as [|n ns] eqn:Hrange.
  - inversion Hruns; subst. unfold rounds.
    induction (chunks [] (_run 0 cycles u)); simpl; done.
  - eapply cohort_rounds; eauto using shape_run, good_run.
Qed.

Lemma tiers_round_robin users cycles ob s :
  exists ob' s' evs,
    tiers S test waits users cycles ob s = Some (ob', s', evs)
    /\ evs = flat_map (round_robin cycles) users
    /\ s' = fold_left apply_event evs s.
Proof.
  revert ob s. induction users as [|u users IH]; intros ob s; simpl.
  - by exists ob, s, [].
  - destruct (join_round_robin cycles u ob s)
      as (ob1 & s1 & evs & -> & -> & Hs1).
    simpl. destruct (IH ob1 s1) as (ob2 & s2 & evs' & -> & -> & ->). simpl.
    eexists _, _, _. split; [reflexivity|]. split; [done|].
    by rewrite fold_left_app, <- Hs1.
Qed.

End Quiet.


End SchedulerFacts.

(** No invocation waits. *)
Definition no_wait (u n cycle x : Z) : nat := 0.

(** The invocation of greenlet 1 in the first iteration of the cycle of
    size 2 waits once; no other does. *)
Definition one_wait (u n cycle x : Z) : nat :=
  if (n =? 1) && (cycle =? 2) && (x =? 0) then 1 else 0.

(** In the first iteration of every cycle greenlet [n] waits [n + 1]
    times. *)
Definition first_waits (u n cycle x : Z) : nat :=
  if x =? 0 then Z.to_nat (n + 1) else 0.

Definition fresh_test : Scheduler.TestCase :=
  {| Scheduler.current_cycle := None; Scheduler.current_user := None |}.

(** The test object of tier 2 in the cycle of size [c]. *)
Definition at_cycle (c : Z) : Scheduler.TestCase :=
  {| Scheduler.current_cycle := Some c; Scheduler.current_user := Some 2 |}.



Lemma run_invocations_expected_total_witness :
  exists total ob' s' evs,
    Workload._compute {| Workload.users := "2:1"; Workload.cycles := "1:2";
                         Workload.agents := None |}
    = Ok (total, [1; 2], [2; 1], None)
    /\ Scheduler.run unit (fun _ s => s) first_waits
         {| Workload.users := "2:1"; Workload.cycles := "1:2";
            Workload.agents := None |}
         fresh_test tt
       = Ok (Some (ob', s', evs))
    /\ Z.of_nat (length (Scheduler.invocations evs)) = total.
Proof.
  apply (run_invocations_expected_total (fun _ s => s) first_waits
           {| Workload.users := "2:1"; Workload.cycles := "1:2";
              Workload.agents := None |} [2; 1] [1; 2]).
  - reflexivity.
  - reflexivity.
  - reflexivity.
  - repeat constructor; lia.
  - repeat constructor; lia.
Defined.

Lemma run_each_greenlet_in_order_witness :
  exists ob' s' evs logs,
    Scheduler.run unit (fun _ s => s) first_waits
      {| Workload.users := "2:1"; Workload.cycles := "1:2";
         Workload.agents := None |}
      fresh_test tt
    = Ok (Some (ob', s', evs))
    /\ evs = concat logs
    /\ Forall2 (fun u log =>
                  Forall (fun e => event_user e = u /\ 0 <= event_num e < u)
                         log
                  /\ forall n, 0 <= n < u ->
                       view n log = script first_waits u n [1; 2])
               [2; 1] logs.
Proof.
  apply (run_each_greenlet_in_order (fun _ s => s) first_waits
           {| Workload.users := "2:1"; Workload.cycles := "1:2";
              Workload.agents := None |} [2; 1] [1; 2]).
  - reflexivity.
  - reflexivity.
Defined.

Lemma run_invocations_clamped_witness :
  exists ob' s' evs,
    Scheduler.run unit (fun _ s => s) first_waits
      {| Workload.users := "2"; Workload.cycles := "3:-1";
         Workload.agents := None |}
      fresh_test tt
    = Ok (Some (ob', s', evs))
    /\ Z.of_nat (length (Scheduler.invocations evs))
       = sum (map (fun u => Z.max 0 u * sum (map (Z.max 0) [3; -1])) [2]).
Proof.
  apply (run_invocations_clamped (fun _ s => s) first_waits
           {| Workload.users := "2"; Workload.cycles := "3:-1";
              Workload.agents := None |} [2] [3; -1]).
  - reflexivity.
  - reflexivity.
Defined.

(** ** Outcomes recorded by a local run *)

Section OutcomeFacts.
Import TestResult.

(** The sum over all buckets of [success + len(failures) + len(errors)]. *)
Definition total_outcomes (self : t) : Z :=
  sum (map Test.outcomes (values self)).

Lemma sum_Permutation (l l' : list Z) : l ≡ₚ l' -> sum l = sum l'.
Proof.
  induction 1 as [|x l l' _ IH|x y l|l l' l'' _ IH _ IH'].
  - done.
  - by rewrite !sum_cons, IH.
  - rewrite !sum_cons. lia.
  - congruence.
Qed.

Definition map_outcomes (m : gmap key Test.t) : Z :=
  sum (map Test.outcomes (map_to_list m).*2).

Lemma map_outcomes_insert_new (m : gmap key Test.t) k ob :
  m !! k = None ->
  map_outcomes (<[k := ob]> m) = Test.outcomes ob + map_outcomes m.
Proof.
  intros Hk. unfold map_outcomes.
  rewrite (sum_Permutation _ (map Test.outcomes ((k, ob) :: map_to_list m).*2)).
  - simpl. by rewrite sum_cons.
  - apply Permutation_map, fmap_Permutation. by apply map_to_list_insert.
Qed.

Lemma map_outcomes_insert (m : gmap key Test.t) k ob0 ob :
  m !! k = Some ob0 ->
  map_outcomes (<[k := ob]> m)
  = map_outcomes m - Test.outcomes ob0 + Test.outcomes ob.
Proof.
  intros Hk. rewrite <- insert_delete_eq.
  rewrite map_outcomes_insert_new by apply lookup_delete_eq.
  rewrite <- (insert_id m k ob0 Hk) at 2. rewrite <- insert_delete_eq.
  rewrite (map_outcomes_insert_new (delete k m) k ob0)
    by apply lookup_delete_eq.
  lia.
Qed.

Lemma tests_getitem_outcomes k self w ob self1 w1 :
  tests_getitem k self w = (ob, self1, w1) ->
  self1.(tests) !! k = Some ob
  /\ total_outcomes self1 = total_outcomes self.
Proof.
  unfold tests_getitem. destruct (tests self !! k) as [ob0|] eqn:Hk.
  - by intros [= <- <- <-].
  - intros [= <- <- <-]. simpl. split; [apply lookup_insert_eq|].
    unfold total_outcomes, values. simpl.
    fold (map_outcomes (<[k:=Test.__init__ (clock w (tick w))]> (tests self))).
    rewrite map_outcomes_insert_new by done. reflexivity.
Qed.

Lemma store_outcomes k ob0 ob self :
  self.(tests) !! k = Some ob0 ->
  total_outcomes (store k ob self)
  = total_outcomes self - Test.outcomes ob0 + Test.outcomes ob.
Proof. intros Hk. by apply map_outcomes_insert. Qed.

(** What a call adds to the sum. *)
Definition outcome_of (c : call) : Z :=
  match c with
  | AddSuccess _ _ _ | AddFailure _ _ _ _ | AddError _ _ _ _ => 1
  | _ => 0
  end.

Lemma attr_outcomes c self w self' w' :
  attr c self w = Ok (self', w') ->
  total_outcomes self' = total_outcomes self + outcome_of c.
Proof.
  destruct c as [| |? st ?|? st ?|? ? st ?|? ? st ?|? st ?|data| | |]; simpl;
    try (intros [= <- <-]; unfold total_outcomes, values; simpl; lia).
  all: try (unfold startTest, stopTest, addError, addFailure, addSuccess,
              _get_test, key_of;
            destruct st as [[[cy us] cc] cu];
            destruct (tests_getitem _ self w) as [[ob self1] w1] eqn:Hget;
            apply tests_getitem_outcomes in Hget as [Hk Ht];
            intros [= <- <-];
            rewrite (store_outcomes _ ob _ _ Hk), Ht;
            unfold Test.outcomes; simpl; rewrite ?length_app; simpl; lia).
  unfold add_hit. destruct (Hit.new data); simpl; [|done].
  intros [= <- <-]. unfold total_outcomes, values. simpl. lia.
Qed.

Lemma getattribute_outcomes c self w self' w' :
  __getattribute__ c self w = Ok (self', w') ->
  total_outcomes self' = total_outcomes self + outcome_of c.
Proof.
  unfold __getattribute__. case_bool_decide; [|apply attr_outcomes].
  destruct (attr c self w) as [[self1 w1]|e] eqn:Hattr; simpl; [|done].
  intros [= <- <-]. by apply attr_outcomes in Hattr.
Qed.

Lemma replay_outcomes cs self w self' w' :
  replay cs self w = Ok (self', w') ->
  total_outcomes self' = total_outcomes self + sum (map outcome_of cs).
Proof.
  revert self w. induction cs as [|c cs IH]; intros self w; simpl.
  - intros [= <- <-]. rewrite sum_nil. lia.
  - destruct (__getattribute__ c self w) as [[self1 w1]|e] eqn:Hc; simpl;
      [|done].
    intros Hcs. apply getattribute_outcomes in Hc. apply IH in Hcs.
    rewrite sum_cons. lia.
Qed.

(** Only [add_hit] can raise. *)
Lemma replay_returns cs self w :
  Forall (fun c => forall data, c <> AddHit data) cs ->
  exists r, replay cs self w = Ok r.
Proof.
  intros Hcs. revert self w.
  induction Hcs as [|c cs Hc _ IH]; intros self w; simpl; [by eexists|].
  assert (exists self1 w1, __getattribute__ c self w = Ok (self1, w1))
    as (self1 & w1 & ->).
  { unfold __getattribute__.
    assert (exists p, attr c self w = Ok p) as [[self1 w1] ->].
    { destruct c; try (by eexists). by destruct (Hc data). }
    case_bool_decide; by eexists _, _. }
  apply IH.
Qed.

(** The scenario reports one outcome per invocation: it calls
    [startTest], one of [addSuccess], [addFailure] and [addError], and
    [stopTest] on the sink, and does nothing else to it. *)
Definition reports_one_outcome
    (test : Scheduler.TestCase -> t * World -> t * World) : Prop :=
  forall ob self w,
  exists id st wid c,
    (c = AddSuccess id st wid
     \/ (exists exc, c = AddFailure id exc st wid)
     \/ (exists exc, c = AddError id exc st wid))
    /\ replay [StartTest id st wid; c; StopTest id st wid] self w
       = Ok (test ob (self, w)).

Lemma one_outcome_more test ob s :
  reports_one_outcome test ->
  total_outcomes (test ob s).1 = total_outcomes s.1 + 1.
Proof.
  intros Hone. destruct s as [self w].
  destruct (Hone ob self w) as (id & st & wid & c & Hc & Hreplay).
  destruct (test ob (self, w)) as [self' w'].
  apply replay_outcomes in Hreplay. simpl. rewrite Hreplay.
  destruct Hc as [->|[[exc ->]|[exc ->]]]; reflexivity.
Qed.

Lemma fold_outcomes test (evs : list Scheduler.event) (s : t * World) :
  reports_one_outcome test ->
  total_outcomes (fold_left (apply_event test) evs s).1
  = total_outcomes s.1 + Z.of_nat (length (Scheduler.invocations evs)).
Proof.
  intros Hone. revert s. induction evs as [|e evs IH]; intros s; simpl.
  - lia.
  - rewrite IH. destruct e as [u n c x ob|u n|u n]; simpl; [|lia|lia].
    rewrite (one_outcome_more test ob s Hone). lia.
Qed.

(** C4. A local run with users "2" and cycles "3" on a fresh sink,
    with a scenario that reports one outcome per invocation into it,
    however often its invocations wait: [_compute] expects 6, the
    scenario is invoked exactly 6 times, and afterwards the sum over
    all buckets of [success + len(failures) + len(errors)] is 6. *)
Theorem local_run_2_3 (test : Scheduler.TestCase -> t * World -> t * World)
    (waits : Z -> Z -> Z -> Z -> nat) (ob : Scheduler.TestCase) (w : World) :
  reports_one_outcome test ->
  let args := {| Workload.users := "2"; Workload.cycles := "3";
                 Workload.agents := None |} in
  Workload._compute args = Ok (6, [3], [2], None)
  /\ exists ob' self' w' evs,
       Scheduler.run (t * World) test waits args ob (__init__, w)
       = Ok (Some (ob', (self', w'), evs))
       /\ length (Scheduler.invocations evs) = 6%nat
       /\ total_outcomes self' = 6.
Proof.
  intros Hone args. split; [reflexivity|].
  destruct (tiers_returns test waits [2] [3] ob (__init__, w))
    as (ob' & [self' w'] & evs & Ht & Hs & Hn).
  exists ob', self', w', evs. change (sum _) with 6 in Hn.
  split; [|split].
  - unfold Scheduler.run.
    change (Workload._compute args) with (Ok (6, [3], [2], @None Z)).
    cbn -[Scheduler.tiers]. by rewrite Ht.
  - lia.
  - apply (f_equal (fun s => total_outcomes s.1)) in Hs. simpl in Hs.
    rewrite Hs, (fold_outcomes test evs (__init__, w) Hone), Hn.
    reflexivity.
Qed.

End OutcomeFacts.

(** A scenario that always succeeds, under one test name and with the
    status tuple of the test object. *)
Definition passing_scenario (ob : Scheduler.TestCase)
    (s : TestResult.t * TestResult.World) : TestResult.t * TestResult.World :=
  let st := (None, None, ob.(Scheduler.current_cycle),
             ob.(Scheduler.current_user)) in
  match TestResult.replay
          [TestResult.StartTest "test_it" st None;
           TestResult.AddSuccess "test_it" st None;
           TestResult.StopTest "test_it" st None] s.1 s.2 with
  | Ok s' => s'
  | Raise _ => s
  end.

Lemma local_run_2_3_witness :
  let args := {| Workload.users := "2"; Workload.cycles := "3";
                 Workload.agents := None |} in
  Workload._compute args = Ok (6, [3], [2], None)
  /\ exists ob' self' w' evs,
       Scheduler.run (TestResult.t * TestResult.World) passing_scenario
         first_waits args fresh_test (TestResult.__init__, seconds_clock)
       = Ok (Some (ob', (self', w'), evs))
       /\ length (Scheduler.invocations evs) = 6%nat
       /\ total_outcomes self' = 6.
Proof.
  apply (local_run_2_3 passing_scenario first_waits).
  intros ob self w.
  exists "test_it"%string,
         (None, None, ob.(Scheduler.current_cycle),
          ob.(Scheduler.current_user)),
         None, (TestResult.AddSuccess "test_it"
                  (None, None, ob.(Scheduler.current_cycle),
                   ob.(Scheduler.current_user)) None).
  split; [by left|]. unfold passing_scenario. simpl fst. simpl snd.
  match goal with
  | |- TestResult.replay ?cs self w = _ =>
      destruct (replay_returns cs self w) as [r ->]
  end.
  - repeat constructor; discriminate.
  - reflexivity.
Defined.

(** ** More of the sink's queries *)

Section QueryFacts.
Import TestResult.

(** *** Filtering hits *)

Lemma hit_filter_spec (url : option string) (cycle : option Z) (h : Hit.t) :
  hit_filter url cycle h = true
  <-> (forall u, url = Some u -> h.(Hit.url) = u)
      /\ (forall c, cycle = Some c -> h.(Hit.current_cycle) = Some c).
Proof.
  unfold hit_filter.
  assert (forall b : bool, (if b then false else true) = true <-> b = false)
    as Hif by (intros []; split; done).
  destruct cycle as [c|], url as [u|].
  - destruct (bool_decide (Hit.current_cycle h ≠ Some c)) eqn:Hc.
    + split; [done|]. intros [_ H]. specialize (H c eq_refl).
      apply (proj2 (differs_false _ _)) in H. congruence.
    + apply (proj1 (differs_false _ _)) in Hc. rewrite Hif, differs_false.
      split; [intros ->; split; by intros ? [= <-]|]. intros [H _]. by apply H.
  - rewrite Hif, differs_false.
    split; [intros ->; split; by intros ? [= <-]|]. intros [_ H]. by apply H.
  - rewrite Hif, differs_false.
    split; [intros ->; split; by intros ? [= <-]|]. intros [H _]. by apply H.
  - split; [split; by intros|done].
Qed.

(** [_get_hits] returns exactly the recorded hits that match both
    filters, each as often as it was recorded and in the order of
    recording, a filter that is [None] letting every hit pass; a hit
    recorded without a status tuple has no [current_cycle] and so
    passes no cycle filter. *)
Theorem get_hits_exactly (url : option string) (cycle : option Z) (self : t) :
  _get_hits url cycle self = filter (passes url cycle) self.(hits)
  /\ (forall h, passes None None h)
  /\ (forall h c, h.(Hit.current_cycle) = None -> ~ passes url (Some c) h).
Proof.
  split; [apply get_hits_filter|]. split; [done|].
  intros h c Hnone [_ Hc]. congruence.
Qed.

(** A URL is among [urls] exactly when filtering the hits by it gives
    something. *)
Theorem urls_are_filterable (u : string) (self : t) :
  u ∈ urls self <-> _get_hits (Some u) None self <> [].
Proof.
  unfold urls. rewrite elem_of_list_to_set, list_elem_of_In, in_map_iff.
  split.
  - intros (h & Hu & Hin) Hnil.
    assert (In h (_get_hits (Some u) None self)) as Hh;
      [|by rewrite Hnil in Hh].
    unfold _get_hits. rewrite filter_In, hit_filter_spec.
    split; [done|]. split; [|done]. by intros ? [= <-].
  - destruct (_get_hits (Some u) None self) as [|h hs] eqn:Hget; [done|].
    intros _. assert (In h (_get_hits (Some u) None self)) as Hh
      by (rewrite Hget; by left).
    unfold _get_hits in Hh. rewrite filter_In, hit_filter_spec in Hh.
    destruct Hh as (Hin & Hu & _). exists h. split; [by apply Hu|done].
Qed.

(** *** Rates *)

Lemma ratio_bounds (a : Z) (n : nat) :
  0 <= a <= Z.of_nat (Datatypes.S n) ->
  (0 <= inject_Z a / inject_Z (Z.of_nat (Datatypes.S n)) <= 1)%Q.
Proof.
  intros Ha. unfold Qle, Qdiv, Qmult, Qinv, inject_Z. simpl. lia.
Qed.

Lemma filter_all {A} (f : A -> bool) (l : list A) :
  Forall (fun x => f x = true) l -> List.filter f l = l.
Proof. induction 1 as [|x l Hx _ IH]; simpl; [done|]. by rewrite Hx, IH. Qed.

Lemma filter_none {A} (f : A -> bool) (l : list A) :
  Forall (fun x => f x = false) l -> List.filter f l = [].
Proof. induction 1 as [|x l Hx _ IH]; simpl; [done|]. by rewrite Hx. Qed.

(** A hit counts as a success when its status is 2XX or 3XX. *)
Definition status_ok (h : Hit.t) : bool :=
  (200 <=? h.(Hit.status)) && (h.(Hit.status) <? 400).

(** [hits_success_rate] never raises and its result lies between 0 and
    1. With [hs] the recorded hits that match the filters, it is 0 when
    [hs] is empty, and otherwise the number of hits of [hs] with a
    status in [200, 400) over the number of hits of [hs]: 1 when all of
    them have such a status, 0 when none has. *)
Theorem hits_success_rate_bounds (url : option string) (cycle : option Z)
    (self : t) :
  exists q hs,
    hs = filter (passes url cycle) self.(hits)
    /\ hits_success_rate url cycle self = Ok q
    /\ (0 <= q <= 1)%Q
    /\ (hs = [] -> q = 0%Q)
    /\ (hs <> [] ->
        q = (inject_Z (Z.of_nat (length (List.filter status_ok hs)))
             / inject_Z (Z.of_nat (length hs)))%Q)
    /\ (hs <> [] -> Forall (fun h => status_ok h = true) hs -> (q == 1)%Q)
    /\ (Forall (fun h => status_ok h = false) hs -> (q == 0)%Q).
Proof.
  unfold hits_success_rate. fold status_ok. rewrite get_hits_filter.
  destruct (filter (passes url cycle) self.(hits)) as [|h hs] eqn:Hget;
    eexists _, _; (split; [reflexivity|]).
  - repeat split; try done.
  - rewrite true_div_length. split; [reflexivity|].
    split; [|split; [done|split; [done|split]]].
    + apply ratio_bounds. split; [lia|].
      apply inj_le, List.filter_length_le.
    + intros _ Hall. rewrite (filter_all _ _ Hall).
      unfold Qeq, Qdiv, Qmult, Qinv, inject_Z. simpl. lia.
    + intros Hnone. rewrite (filter_none _ _ Hnone).
      unfold Qeq, Qdiv, Qmult, Qinv, inject_Z. simpl. lia.
Qed.

Lemma float_sum_from_None (l : list (option Q)) (acc : Q) :
  None ∈ l -> float_sum_from acc l = Raise TypeError.
Proof.
  revert acc. induction l as [|[q|] l IH]; intros acc Hin; simpl.
  - by apply elem_of_nil in Hin.
  - apply IH. by apply elem_of_cons in Hin as [|].
  - done.
Qed.

Lemma success_rate_None (ob : Test.t) :
  Test.success_rate ob = None <-> Test.outcomes ob = 0.
Proof.
  unfold Test.success_rate, Test.outcomes.
  destruct (_ =? 0) eqn:Hz; [apply Z.eqb_eq in Hz|apply Z.eqb_neq in Hz];
    split; done.
Qed.

(** A bucket in which no outcome has been recorded (a test that was
    started, say, and has not reported yet) has no success rate, and as
    long as one such bucket matches the filters [test_success_rate]
    raises a [TypeError] instead of returning a mean. *)
Theorem test_success_rate_unreported (test : option string)
    (cycle : option Z) (self : t) (ob : Test.t) :
  In ob (_get_tests test cycle None self) ->
  Test.outcomes ob = 0 ->
  test_success_rate test cycle self = Raise TypeError.
Proof.
  intros Hin Hzero. unfold test_success_rate.
  assert (None ∈ map Test.success_rate (_get_tests test cycle None self))
    as HN.
  { apply list_elem_of_In, in_map_iff. exists ob.
    split; [by apply success_rate_None|done]. }
  destruct (map Test.success_rate (_get_tests test cycle None self)) eqn:Hd.
  - by apply elem_of_nil in HN.
  - by rewrite (float_sum_from_None _ 0%Q HN).
Qed.

(** A bucket matches the filters when it has the name asked for, if
    one is, and the cycle asked for, if one is. *)
Definition bucket_passes (name : option string) (cycle : option Z)
    (ob : Test.t) : Prop :=
  match name with
  | Some n => ob.(Test.name) = Some n
  | None => True
  end
  /\ match cycle with
     | Some c => ob.(Test.current_cycle) = Some c
     | None => True
     end.

#[global] Instance bucket_passes_dec name cycle ob :
  Decision (bucket_passes name cycle ob).
Proof. unfold bucket_passes. destruct name, cycle; apply _. Defined.

Lemma test_filter_passes (name : option string) (cycle : option Z)
    (ob : Test.t) :
  test_filter name cycle None ob = true <-> bucket_passes name cycle ob.
Proof.
  unfold test_filter, bucket_passes.
  assert (forall b : bool, (if b then false else true) = true <-> b = false)
    as Hif by (intros []; split; done).
  destruct name as [n|], cycle as [c|].
  - destruct (bool_decide (Test.name ob ≠ Some n)) eqn:Hn.
    + split; [done|]. intros [H _].
      apply (proj2 (differs_false _ _)) in H. congruence.
    + apply (proj1 (differs_false _ _)) in Hn. rewrite Hif, differs_false.
      split; [done|]. by intros [_ H].
  - rewrite Hif, differs_false. split; [done|]. by intros [H _].
  - rewrite Hif, differs_false. split; [done|]. by intros [_ H].
  - done.
Qed.

Lemma get_tests_filter (name : option string) (cycle : option Z) (self : t) :
  _get_tests name cycle None self
  = filter (bucket_passes name cycle) (values self).
Proof.
  unfold _get_tests. induction (values self) as [|ob obs IH]; [done|].
  rewrite filter_cons. simpl. rewrite IH.
  destruct (decide (bucket_passes name cycle ob)) as [Hp|Hp].
  - by apply test_filter_passes in Hp as ->.
  - destruct (test_filter name cycle None ob) eqn:Hf; [|done].
    by apply test_filter_passes in Hf.
Qed.

(** The success rate of a bucket, as the float it is. *)
Definition rate (ob : Test.t) : Q :=
  nearest (inject_Z ob.(Test.success) / inject_Z (Test.outcomes ob)).

Lemma float_sum_from_rates (l : list Test.t) (acc : Q) :
  Forall (fun ob => Test.outcomes ob <> 0) l ->
  float_sum_from acc (map Test.success_rate l)
  = Ok (fold_left float_add (map rate l) acc).
Proof.
  intros Hl. revert acc. induction Hl as [|ob l Hob _ IH]; intros acc; simpl;
    [done|].
  unfold Test.success_rate at 1. fold (Test.outcomes ob).
  apply Z.eqb_neq in Hob as ->. simpl. apply IH.
Qed.

(** When buckets match the filters and each holds at least one outcome,
    [test_success_rate] returns the mean, as floating point gives it,
    of their rates [success / (success + failures + errors)], the
    buckets taken in the order in which the dict gives its values,
    which is some order of the matching buckets. *)
Theorem test_success_rate_mean (test : option string) (cycle : option Z)
    (self : t) :
  filter (bucket_passes test cycle) (map_to_list self.(tests)).*2 <> [] ->
  Forall (fun ob => Test.outcomes ob <> 0)
         (filter (bucket_passes test cycle) (map_to_list self.(tests)).*2) ->
  exists obs,
    obs ≡ₚ filter (bucket_passes test cycle) (map_to_list self.(tests)).*2
    /\ test_success_rate test cycle self
       = Ok (Some (float_mean (map rate obs))).
Proof.
  intros Hne Hall. fold (values self) in *.
  exists (filter (bucket_passes test cycle) (values self)).
  split; [done|]. unfold test_success_rate. rewrite get_tests_filter.
  destruct (filter (bucket_passes test cycle) (values self)) as [|ob obs];
    [done|].
  rewrite (float_sum_from_rates _ _ Hall).
  unfold float_mean, float_sum. rewrite !length_map.
  cbn [map length Z.of_nat]. reflexivity.
Qed.

(** *** The duration of the run *)

Lemma seconds_normalize (n r m : Z) :
  0 <= r < 86400 -> 0 <= m < us_per_second ->
  (normalize (n * us_per_day + r * us_per_second + m)).(seconds) = r.
Proof.
  intros Hr Hm. unfold normalize. simpl. unfold us_per_day, us_per_second in *.
  replace (n * (86400 * 1000000) + r * 1000000 + m)
    with (r * 1000000 + m + n * (86400 * 1000000)) by lia.
  rewrite Z.mod_add by lia. rewrite Z.mod_small by lia.
  rewrite Z.div_add_l by lia. rewrite Z.div_small by lia. lia.
Qed.

(** [duration] is the seconds field of [end - start]: whole days of the
    difference and the fraction of a second are dropped, so a run that
    lasted [n] days, [r] seconds and [m] microseconds has duration [r],
    which is below 86400 however long the run; the end is [stop_time],
    or the clock while the run is not stopped. *)
Theorem duration_drops_whole_days (self : t) (w : World) (s n r m : Z) :
  self.(start_time) = Some s ->
  match self.(stop_time) with
  | Some e => e
  | None => w.(clock) w.(tick)
  end = s + n * us_per_day + r * us_per_second + m ->
  0 <= r < 86400 -> 0 <= m < us_per_second ->
  exists w', duration self w = Ok (r, w').
Proof.
  intros Hs He Hr Hm. unfold duration, since_start, utcnow.
  destruct (stop_time self) as [e|]; rewrite Hs; simpl; subst;
    eexists; do 2 f_equal; unfold datetime_sub;
    (replace (_ - s) with (n * us_per_day + r * us_per_second + m) by lia);
    by apply seconds_normalize.
Qed.

(** [requests_per_second] divides the number of all hits, whatever the
    filters given, by that duration: a stopped run that lasted a whole
    number of days plus less than a second raises a
    [ZeroDivisionError], any other returns the quotient. *)
Theorem requests_per_second_by_duration (url : option string)
    (cycle : option Z) (self : t) (w : World) (s n r m : Z) :
  self.(start_time) = Some s ->
  self.(stop_time) = Some (s + n * us_per_day + r * us_per_second + m) ->
  0 <= r < 86400 -> 0 <= m < us_per_second ->
  requests_per_second url cycle self w
  = if r =? 0 then Raise ZeroDivisionError
    else Ok ((inject_Z (nb_hits self) / inject_Z r)%Q, w).
Proof.
  intros Hs He Hr Hm.
  unfold requests_per_second, duration, since_start, mbind, result_bind.
  rewrite He, Hs. cbv beta iota zeta. unfold datetime_sub.
  replace (_ - s) with (n * us_per_day + r * us_per_second + m) by lia.
  rewrite seconds_normalize by done. unfold true_div, nb_hits.
  destruct (r =? 0) eqn:Hz.
  - apply Z.eqb_eq in Hz as ->. reflexivity.
  - apply Z.eqb_neq in Hz.
    destruct (Qeq_bool (inject_Z r) 0) eqn:Hq; [|done].
    apply Qeq_bool_eq in Hq. unfold Qeq in Hq. simpl in Hq. lia.
Qed.

(** [tests_per_second] divides the number of buckets by the seconds
    field of [stop_time - start_time], whole days and the fraction of a
    second dropped: a run that lasted a whole number of days plus less
    than a second raises a [ZeroDivisionError], any other returns the
    quotient. *)
Theorem tests_per_second_by_duration (self : t) (s n r m : Z) :
  self.(start_time) = Some s ->
  self.(stop_time) = Some (s + n * us_per_day + r * us_per_second + m) ->
  0 <= r < 86400 -> 0 <= m < us_per_second ->
  tests_per_second self
  = if r =? 0 then Raise ZeroDivisionError
    else Ok (inject_Z (Z.of_nat (size self.(tests))) / inject_Z r)%Q.
Proof.
  intros Hs He Hr Hm.
  unfold tests_per_second, since_start, mbind, result_bind.
  rewrite He, Hs. cbv beta iota zeta. unfold datetime_sub.
  replace (_ - s) with (n * us_per_day + r * us_per_second + m) by lia.
  rewrite seconds_normalize by done. unfold true_div, nb_tests.
  destruct (r =? 0) eqn:Hz.
  - apply Z.eqb_eq in Hz as ->. reflexivity.
  - apply Z.eqb_neq in Hz.
    destruct (Qeq_bool (inject_Z r) 0) eqn:Hq; [|done].
    apply Qeq_bool_eq in Hq. unfold Qeq in Hq. simpl in Hq. lia.
Qed.

(** Before [startTestRun] none of the duration queries returns: each
    raises a [TypeError], stopped or not. *)
Theorem duration_queries_need_start (url : option string)
    (cycle : option Z) (self : t) (w : World) :
  self.(start_time) = None ->
  duration self w = Raise TypeError
  /\ requests_per_second url cycle self w = Raise TypeError
  /\ tests_per_second self = Raise TypeError.
Proof.
  intros Hs. unfold requests_per_second, tests_per_second, duration,
    since_start, utcnow.
  rewrite Hs. destruct (stop_time self); done.
Qed.

End QueryFacts.

Section QueryWitnesses.
Import TestResult.

Lemma test_success_rate_unreported_witness :
  test_success_rate None None five_second_run = Raise TypeError.
Proof.
  apply (test_success_rate_unreported None None five_second_run
                                      (Test.__init__ 0)).
  - vm_compute. by left.
  - reflexivity.
Defined.

(** A bucket with one success and nine failures. *)
Definition one_in_ten (name : string) (cycle : Z) : Test.t :=
  {| Test.start := 0; Test.end_ := Some us_per_second;
     Test.name := Some name; Test.cycle := None;
     Test.current_cycle := Some cycle;
     Test.failures := repeat "AssertionError"%string 9; Test.errors := [];
     Test.success := 1; Test.user := None |}.

(** A sink with three such buckets for "a", and one for "b" in which
    every test succeeded. *)
Definition rated_tests : t :=
  {| hits := [];
     tests :=
       {[ ("a"%string, Some 1, Some 1, None) := one_in_ten "a" 1;
          ("a"%string, Some 2, Some 1, None) := one_in_ten "a" 1;
          ("a"%string, Some 1, Some 2, None) := one_in_ten "a" 2;
          ("b"%string, Some 1, Some 1, None) :=
            {| Test.start := 0; Test.end_ := Some us_per_second;
               Test.name := Some "b"%string; Test.cycle := None;
               Test.current_cycle := Some 1;
               Test.failures := []; Test.errors := [];
               Test.success := 4; Test.user := None |} ]};
     sockets := 0; socket_data_received := 0; start_time := None;
     stop_time := None; observers := [] |}.

Lemma test_success_rate_mean_witness :
  (exists obs,
      obs ≡ₚ filter (bucket_passes (Some "a"%string) None)
                    (map_to_list rated_tests.(tests)).*2
      /\ test_success_rate (Some "a"%string) None rated_tests
         = Ok (Some (float_mean (map rate obs))))
  /\ length (filter (bucket_passes (Some "a"%string) None)
                    (map_to_list rated_tests.(tests)).*2) = 3%nat
  /\ test_success_rate (Some "a"%string) None rated_tests
     = Ok (Some (7205759403792795 # 72057594037927936)%Q).
Proof.
  split; [|split; vm_compute; reflexivity].
  apply (test_success_rate_mean (Some "a"%string) None rated_tests).
  - vm_compute. discriminate.
  - vm_compute. repeat constructor; discriminate.
Defined.

(** A run stopped two days and ninety seconds and a half after it
    started, with nothing recorded. *)
Definition two_day_run : t :=
  {| hits := []; tests := ∅; sockets := 0; socket_data_received := 0;
     start_time := Some 7;
     stop_time := Some (7 + 2 * us_per_day + 90 * us_per_second + 500000);
     observers := [] |}.

Lemma duration_drops_whole_days_witness :
  exists w', duration two_day_run seconds_clock = Ok (90, w').
Proof.
  apply (duration_drops_whole_days two_day_run seconds_clock 7 2 90 500000).
  - reflexivity.
  - reflexivity.
  - lia.
  - unfold us_per_second. lia.
Defined.

(** A hit on [url] in cycle [cycle]. *)
Definition hit_on (url : string) (cycle : Z) : Hit.t :=
  {| Hit.url := url; Hit.method := "GET"%string; Hit.status := 200;
     Hit.started := 0;
     Hit.elapsed := {| days := 0; seconds := 0; microseconds := 100000 |};
     Hit.cycle := None; Hit.user := None; Hit.current_cycle := Some cycle;
     Hit.current_user := Some 1; Hit.worker_id := None |}.

(** A run with three hits and two tests, stopped [late] microseconds
    after it started at 7. *)
Definition busy_run (late : Z) : t :=
  {| hits := [hit_on "/a" 1; hit_on "/b" 1; hit_on "/a" 2];
     tests := {[ ("a"%string, Some 1, Some 1, None) := Test.__init__ 7;
                 ("a"%string, Some 1, Some 2, None) := Test.__init__ 8 ]};
     sockets := 0; socket_data_received := 0;
     start_time := Some 7; stop_time := Some (7 + late);
     observers := [] |}.

Lemma requests_per_second_by_duration_witness :
  (requests_per_second (Some "/a"%string) (Some 2)
     (busy_run (2 * us_per_day + 90 * us_per_second + 500000)) seconds_clock
   = if 90 =? 0 then Raise ZeroDivisionError
     else Ok ((inject_Z (nb_hits (busy_run (2 * us_per_day
                                            + 90 * us_per_second + 500000)))
               / inject_Z 90)%Q, seconds_clock))
  /\ (requests_per_second None None
        (busy_run (2 * us_per_day + 0 * us_per_second + 500000)) seconds_clock
      = if 0 =? 0 then Raise ZeroDivisionError
        else Ok ((inject_Z (nb_hits (busy_run (2 * us_per_day
                                               + 0 * us_per_second + 500000)))
                  / inject_Z 0)%Q, seconds_clock))
  /\ nb_hits (busy_run (2 * us_per_day + 90 * us_per_second + 500000)) = 3
  /\ length (_get_hits (Some "/a"%string) (Some 2)
               (busy_run (2 * us_per_day + 90 * us_per_second + 500000)))
     = 1%nat.
Proof.
  split; [|split; [|split; reflexivity]].
  - apply (requests_per_second_by_duration (Some "/a"%string) (Some 2)
             (busy_run (2 * us_per_day + 90 * us_per_second + 500000))
             seconds_clock 7 2 90 500000).
    + reflexivity.
    + reflexivity.
    + lia.
    + unfold us_per_second. lia.
  - apply (requests_per_second_by_duration None None
             (busy_run (2 * us_per_day + 0 * us_per_second + 500000))
             seconds_clock 7 2 0 500000).
    + reflexivity.
    + reflexivity.
    + lia.
    + unfold us_per_second. lia.
Defined.

Lemma tests_per_second_by_duration_witness :
  (tests_per_second (busy_run (2 * us_per_day + 90 * us_per_second + 500000))
   = if 90 =? 0 then Raise ZeroDivisionError
     else Ok (inject_Z (Z.of_nat
                          (size (busy_run (2 * us_per_day + 90 * us_per_second
                                           + 500000)).(tests)))
              / inject_Z 90)%Q)
  /\ (tests_per_second (busy_run (2 * us_per_day + 0 * us_per_second + 500000))
      = if 0 =? 0 then Raise ZeroDivisionError
        else Ok (inject_Z (Z.of_nat
                             (size (busy_run (2 * us_per_day + 0 * us_per_second
                                              + 500000)).(tests)))
                 / inject_Z 0)%Q)
  /\ size (busy_run (2 * us_per_day + 90 * us_per_second + 500000)).(tests)
     = 2%nat.
Proof.
  split; [|split; [|reflexivity]].
  - apply (tests_per_second_by_duration
             (busy_run (2 * us_per_day + 90 * us_per_second + 500000))
             7 2 90 500000).
    + reflexivity.
    + reflexivity.
    + lia.
    + unfold us_per_second. lia.
  - apply (tests_per_second_by_duration
             (busy_run (2 * us_per_day + 0 * us_per_second + 500000))
             7 2 0 500000).
    + reflexivity.
    + reflexivity.
    + lia.
    + unfold us_per_second. lia.
Defined.

Lemma duration_queries_need_start_witness :
  duration __init__ seconds_clock = Raise TypeError
  /\ requests_per_second None None __init__ seconds_clock
     = Raise TypeError
  /\ tests_per_second __init__ = Raise TypeError.
Proof.
  apply (duration_queries_need_start None None __init__
                                     seconds_clock).
  reflexivity.
Defined.

End QueryWitnesses.

(** ** What a sequence of calls does to the sink *)

Section ReplayFacts.
Import TestResult.
#[local] Set Warnings "-clear-no-such-hyp".

(** The calls of a sequence that returned, each with the sink before
    and after its method. *)
Inductive trace : t -> list call -> t -> Prop :=
| trace_nil self : trace self [] self
| trace_cons self w c self1 w1 cs self2 :
    attr c self w = Ok (self1, w1) ->
    trace self1 cs self2 ->
    trace self (c :: cs) self2.

Lemma getattribute_attr c self w self' w' :
  __getattribute__ c self w = Ok (self', w') ->
  exists w1, attr c self w = Ok (self', w1).
Proof.
  unfold __getattribute__. case_bool_decide; [|by eexists].
  destruct (attr c self w) as [[self1 w1]|e]; simpl; [|done].
  intros [= <- <-]. by eexists.
Qed.

Lemma replay_trace cs self w self' w' :
  replay cs self w = Ok (self', w') -> trace self cs self'.
Proof.
  revert self w. induction cs as [|c cs IH]; intros self w; simpl.
  - intros [= <- <-]. constructor.
  - destruct (__getattribute__ c self w) as [[self1 w1]|e] eqn:Hc; simpl;
      [|done].
    intros Hcs. apply getattribute_attr in Hc as [w2 Hc].
    econstructor; eauto.
Qed.

(** The bucket a call works on. *)
Definition bucket_key (c : call) : option key :=
  match c with
  | StartTest test st wid | StopTest test st wid | AddSuccess test st wid
  | AddError test _ st wid | AddFailure test _ st wid =>
      Some (key_of test st wid)
  | _ => None
  end.

Lemma tests_getitem_fields k self w ob self1 w1 :
  tests_getitem k self w = (ob, self1, w1) ->
  self1.(hits) = self.(hits) /\ self1.(sockets) = self.(sockets)
  /\ self1.(socket_data_received) = self.(socket_data_received)
  /\ self1.(start_time) = self.(start_time)
  /\ self1.(stop_time) = self.(stop_time).
Proof.
  unfold tests_getitem. destruct (tests self !! k); intros [= <- <- <-]; done.
Qed.

Lemma tests_getitem_lookup k self w ob self1 w1 :
  tests_getitem k self w = (ob, self1, w1) ->
  self1.(tests) !! k = Some ob
  /\ (forall k', k' <> k -> self1.(tests) !! k' = self.(tests) !! k')
  /\ (match self.(tests) !! k with
      | Some ob0 => ob = ob0 /\ self1 = self
      | None => exists now, ob = Test.__init__ now
      end).
Proof.
  unfold tests_getitem. destruct (tests self !! k) as [ob0|] eqn:Hk;
    intros [= <- <- <-]; simpl.
  - done.
  - split; [apply lookup_insert_eq|]. split; [|by eexists].
    intros k' Hk'. by apply lookup_insert_ne.
Qed.

(** A call on a bucket fetches the bucket, making it if need be, and
    writes it back with its outcome appended; the other calls leave the
    buckets alone. *)
Lemma attr_bucket c self w self' w' :
  attr c self w = Ok (self', w') ->
  match bucket_key c with
  | Some k =>
      exists ob self1 w1 ob',
        tests_getitem k self w = (ob, self1, w1)
        /\ self' = store k ob' self1
        /\ ob'.(Test.start) = ob.(Test.start)
        /\ ob'.(Test.errors)
           = ob.(Test.errors)
             ++ match c with AddError _ e _ _ => [e] | _ => [] end
        /\ ob'.(Test.failures)
           = ob.(Test.failures)
             ++ match c with AddFailure _ e _ _ => [e] | _ => [] end
        /\ ob'.(Test.success)
           = ob.(Test.success)
             + match c with AddSuccess _ _ _ => 1 | _ => 0 end
        /\ (Test.finished ob = true -> Test.finished ob' = true)
  | None => self'.(tests) = self.(tests)
  end.
Proof.
  destruct c as [| |? st ?|? st ?|? ? st ?|? ? st ?|? st ?|data| | |]; simpl;
    try (intros [= <- <-]; done).
  all: try (unfold startTest, stopTest, addError, addFailure, addSuccess,
              _get_test, key_of;
            destruct st as [[[cy us] cc] cu];
            destruct (tests_getitem _ self w) as [[ob self1] w1] eqn:Hget;
            intros [= <- <-]; eexists ob, self1, w1, _;
            split; [reflexivity|]; split; [reflexivity|]; simpl;
            rewrite ?app_nil_r, ?Z.add_0_r; done).
  unfold add_hit. destruct (Hit.new data); simpl; [|done].
  by intros [= <- <-].
Qed.

(** *** Buckets are made, never removed *)

Lemma attr_dom c self w self' w' :
  attr c self w = Ok (self', w') ->
  dom self'.(tests)
  = dom self.(tests) ∪ match bucket_key c with
                        | Some k => {[k]}
                        | None => ∅
                        end.
Proof.
  intros Hattr. apply attr_bucket in Hattr.
  destruct (bucket_key c) as [k|].
  - destruct Hattr as (ob & self1 & w1 & ob' & Hget & -> & _).
    apply tests_getitem_lookup in Hget as (Hk & Hother & _).
    simpl. rewrite dom_insert_L. apply set_eq. intros k'.
    rewrite !elem_of_union, elem_of_singleton, !elem_of_dom.
    destruct (decide (k' = k)) as [->|Hne].
    + rewrite Hk. split; eauto.
    + rewrite (Hother k' Hne). split; [intros [|]; auto; done|].
      intros [|]; auto; done.
  - rewrite Hattr. set_solver.
Qed.

(** After a sequence of calls that returned, the buckets are those
    there were before and one for every key named by a [startTest],
    [stopTest], [addSuccess], [addFailure] or [addError] of the
    sequence, whichever of them came first for the key: [nb_tests]
    counts distinct keys [(test, current_user, current_cycle,
    worker_id)], not invocations, and no call removes a bucket. *)
Theorem replay_buckets (cs : list call) (self : t) (w : World) (self' : t)
    (w' : World) :
  replay cs self w = Ok (self', w') ->
  dom self'.(tests) = dom self.(tests) ∪ list_to_set (omap bucket_key cs)
  /\ nb_tests self'
     = Z.of_nat (size (dom self.(tests) ∪ list_to_set (omap bucket_key cs))).
Proof.
  intros Hreplay. apply replay_trace in Hreplay.
  assert (dom self'.(tests)
          = dom self.(tests) ∪ list_to_set (omap bucket_key cs)) as Hdom.
  { induction Hreplay as [self|self w0 c self1 w1 cs self2 Hattr _ IH].
    - simpl. set_solver.
    - rewrite IH, (attr_dom _ _ _ _ _ Hattr). simpl.
      destruct (bucket_key c); simpl; set_solver. }
  split; [exact Hdom|]. unfold nb_tests. by rewrite <- Hdom, size_dom.
Qed.

(** *** A bucket only grows *)

Lemma attr_bucket_grows c self w self' w' k ob :
  attr c self w = Ok (self', w') ->
  self.(tests) !! k = Some ob ->
  exists ob',
    self'.(tests) !! k = Some ob'
    /\ ob'.(Test.start) = ob.(Test.start)
    /\ ob.(Test.errors) `prefix_of` ob'.(Test.errors)
    /\ ob.(Test.failures) `prefix_of` ob'.(Test.failures)
    /\ ob.(Test.success) <= ob'.(Test.success)
    /\ (Test.finished ob = true -> Test.finished ob' = true).
Proof.
  intros Hattr Hk. apply attr_bucket in Hattr.
  destruct (bucket_key c) as [k0|].
  - destruct Hattr as (ob0 & self1 & w1 & ob' & Hget & -> & Hs & He & Hf
                       & Hn & Hfin).
    apply tests_getitem_lookup in Hget as (Hk0 & Hother & Hold).
    destruct (decide (k = k0)) as [->|Hne].
    + rewrite Hk in Hold. destruct Hold as [-> ->].
      exists ob'. simpl. rewrite lookup_insert_eq.
      repeat split; try done.
      * rewrite He. by apply prefix_app_r.
      * rewrite Hf. by apply prefix_app_r.
      * rewrite Hn. destruct c; lia.
    + exists ob. simpl. rewrite lookup_insert_ne by done.
      rewrite (Hother k Hne). done.
  - exists ob. by rewrite Hattr.
Qed.

(** A bucket that is there stays there through any sequence of calls
    that returns, with the start time it was made with; its errors and
    failures are only appended to, its success counter never goes down,
    and once finished it stays finished. In particular [get_error] and
    [get_failure], once they return something, return it for good. *)
Theorem replay_bucket_grows (cs : list call) (self : t) (w : World)
    (self' : t) (w' : World) (k : key) (ob : Test.t) :
  replay cs self w = Ok (self', w') ->
  self.(tests) !! k = Some ob ->
  exists ob',
    self'.(tests) !! k = Some ob'
    /\ ob'.(Test.start) = ob.(Test.start)
    /\ ob.(Test.errors) `prefix_of` ob'.(Test.errors)
    /\ ob.(Test.failures) `prefix_of` ob'.(Test.failures)
    /\ ob.(Test.success) <= ob'.(Test.success)
    /\ (Test.finished ob = true -> Test.finished ob' = true)
    /\ (forall e, Test.get_error ob = Some e -> Test.get_error ob' = Some e)
    /\ (forall e, Test.get_failure ob = Some e ->
                  Test.get_failure ob' = Some e).
Proof.
  intros Hreplay. apply replay_trace in Hreplay.
  assert (forall (l l' : list exc_info) e, l `prefix_of` l' ->
            match l with [] => None | x :: _ => Some x end = Some e ->
            match l' with [] => None | x :: _ => Some x end = Some e)
    as Hhead.
  { intros l l' e [l2 ->]. by destruct l. }
  revert ob. induction Hreplay as [self|self w0 c self1 w1 cs self2 Hattr _ IH];
    intros ob Hk.
  - exists ob. repeat split; try done. all: eauto.
  - destruct (attr_bucket_grows _ _ _ _ _ _ _ Hattr Hk)
      as (ob1 & Hk1 & Hs1 & He1 & Hf1 & Hn1 & Hfin1).
    destruct (IH ob1 Hk1) as (ob2 & Hk2 & Hs2 & He2 & Hf2 & Hn2 & Hfin2 & _).
    exists ob2. split; [done|]. split; [congruence|].
    assert (Test.errors ob `prefix_of` Test.errors ob2) as He
      by (etrans; eauto).
    assert (Test.failures ob `prefix_of` Test.failures ob2) as Hf
      by (etrans; eauto).
    repeat split; try done; try lia; eauto.
Qed.

(** *** The socket gauge and the byte counter *)

Definition socket_delta (c : call) : Z :=
  match c with
  | SocketOpen _ _ => 1
  | SocketClose _ _ => -1
  | _ => 0
  end.

Definition bytes_of (c : call) : Z :=
  match c with
  | SocketMessage _ size _ => size
  | _ => 0
  end.

Lemma attr_other_fields c self w self' w' :
  attr c self w = Ok (self', w') ->
  bucket_key c <> None ->
  self'.(hits) = self.(hits) /\ self'.(sockets) = self.(sockets)
  /\ self'.(socket_data_received) = self.(socket_data_received)
  /\ self'.(start_time) = self.(start_time)
  /\ self'.(stop_time) = self.(stop_time).
Proof.
  intros Hattr Hkey. apply attr_bucket in Hattr.
  destruct (bucket_key c) as [k|]; [|done].
  destruct Hattr as (ob & self1 & w1 & ob' & Hget & -> & _).
  by apply tests_getitem_fields in Hget.
Qed.

Lemma attr_sockets c self w self' w' :
  attr c self w = Ok (self', w') ->
  self'.(sockets) = self.(sockets) + socket_delta c
  /\ self'.(socket_data_received)
     = self.(socket_data_received) + bytes_of c.
Proof.
  intros Hattr. destruct (bucket_key c) as [k|] eqn:Hkey.
  - apply attr_other_fields in Hattr as (_ & -> & -> & _);
      [|by rewrite Hkey].
    destruct c; try done; simpl; lia.
  - destruct c as [| | | | | | |data| | |]; try done; simpl in Hattr;
      try (injection Hattr as <- <-; simpl; lia).
    unfold add_hit in Hattr. destruct (Hit.new data); [|done].
    injection Hattr as <- <-. simpl. lia.
Qed.

(** After a sequence of calls that returned, the gauge has moved by
    the number of [socket_open] minus the number of [socket_close] (it
    goes below 0 when more were closed than opened) and the byte counter
    by the sum of the sizes given to [socket_message]; no other call
    touches either. *)
Theorem replay_sockets (cs : list call) (self : t) (w : World) (self' : t)
    (w' : World) :
  replay cs self w = Ok (self', w') ->
  self'.(sockets) = self.(sockets) + sum (map socket_delta cs)
  /\ self'.(socket_data_received)
     = self.(socket_data_received) + sum (map bytes_of cs).
Proof.
  intros Hreplay. apply replay_trace in Hreplay.
  induction Hreplay as [self|self w0 c self1 w1 cs self2 Hattr _ [IH1 IH2]].
  - simpl. rewrite sum_nil. lia.
  - apply attr_sockets in Hattr as [H1 H2]. simpl. rewrite !sum_cons. lia.
Qed.

(** *** Hits are appended, in call order *)

Definition hit_data_of (c : call) : option Hit.kwargs :=
  match c with
  | AddHit data => Some data
  | _ => None
  end.

Lemma attr_hits c self w self' w' :
  attr c self w = Ok (self', w') ->
  match hit_data_of c with
  | Some data => exists h, Hit.new data = Ok h
                           /\ self'.(hits) = self.(hits) ++ [h]
  | None => self'.(hits) = self.(hits)
  end.
Proof.
  intros Hattr. destruct (bucket_key c) as [k|] eqn:Hkey.
  - apply attr_other_fields in Hattr as (-> & _); [|by rewrite Hkey].
    by destruct c.
  - destruct c as [| | | | | | |data| | |]; try done; simpl in Hattr |- *;
      try (by injection Hattr as <- <-).
    unfold add_hit in Hattr. destruct (Hit.new data) as [h|]; [|done].
    injection Hattr as <- <-. by exists h.
Qed.

(** After a sequence of calls that returned, the hits are the hits
    there were, untouched and in place, followed by one hit for each
    [add_hit] of the sequence, in call order, each the [Hit] built from
    the keyword arguments of its call: nothing else adds, removes or
    changes a hit. *)
Theorem replay_hits (cs : list call) (self : t) (w : World) (self' : t)
    (w' : World) :
  replay cs self w = Ok (self', w') ->
  exists new,
    self'.(hits) = self.(hits) ++ new
    /\ Forall2 (fun data h => Hit.new data = Ok h) (omap hit_data_of cs) new
    /\ nb_hits self' = nb_hits self + Z.of_nat (length (omap hit_data_of cs)).
Proof.
  intros Hreplay. apply replay_trace in Hreplay.
  assert (exists new,
             self'.(hits) = self.(hits) ++ new
             /\ Forall2 (fun data h => Hit.new data = Ok h)
                        (omap hit_data_of cs) new) as (new & Hhits & Hnew).
  { induction Hreplay
      as [self|self w0 c self1 w1 cs self2 Hattr _ (new & IH1 & IH2)].
    - exists []. by rewrite app_nil_r.
    - apply attr_hits in Hattr. simpl.
      destruct (hit_data_of c) as [data|].
      + destruct Hattr as (h & Hh & Hhits). exists (h :: new).
        rewrite IH1, Hhits, <- app_assoc. split; [done|]. by constructor.
      + exists new. by rewrite IH1, Hattr. }
  exists new. split; [done|]. split; [done|].
  unfold nb_hits. rewrite Hhits, length_app.
  apply Forall2_length in Hnew. lia.
Qed.

(** *** Successes, failures and errors are counted apart *)

Definition map_sum (f : Test.t -> Z) (m : gmap key Test.t) : Z :=
  sum (map f (map_to_list m).*2).

Lemma map_sum_insert_new (f : Test.t -> Z) (m : gmap key Test.t) k ob :
  m !! k = None -> map_sum f (<[k := ob]> m) = f ob + map_sum f m.
Proof.
  intros Hk. unfold map_sum.
  rewrite (sum_Permutation _ (map f ((k, ob) :: map_to_list m).*2)).
  - simpl. by rewrite sum_cons.
  - apply Permutation_map, fmap_Permutation. by apply map_to_list_insert.
Qed.

Lemma map_sum_insert (f : Test.t -> Z) (m : gmap key Test.t) k ob0 ob :
  m !! k = Some ob0 ->
  map_sum f (<[k := ob]> m) = map_sum f m - f ob0 + f ob.
Proof.
  intros Hk. rewrite <- insert_delete_eq.
  rewrite map_sum_insert_new by apply lookup_delete_eq.
  rewrite <- (insert_id m k ob0 Hk) at 2. rewrite <- insert_delete_eq.
  rewrite (map_sum_insert_new f (delete k m) k ob0) by apply lookup_delete_eq.
  lia.
Qed.

Lemma get_tests_all (self : t) : _get_tests None None None self = values self.
Proof.
  unfold _get_tests. induction (values self) as [|ob l IH]; simpl; [done|].
  by rewrite IH.
Qed.

Lemma attr_map_sum (f : Test.t -> Z) c self w self' w' :
  (forall now, f (Test.__init__ now) = 0) ->
  attr c self w = Ok (self', w') ->
  match bucket_key c with
  | Some k => exists ob ob',
      map_sum f self'.(tests) = map_sum f self.(tests) - f ob + f ob'
      /\ ob'.(Test.errors)
         = ob.(Test.errors)
           ++ match c with AddError _ e _ _ => [e] | _ => [] end
      /\ ob'.(Test.failures)
         = ob.(Test.failures)
           ++ match c with AddFailure _ e _ _ => [e] | _ => [] end
      /\ ob'.(Test.success)
         = ob.(Test.success)
           + match c with AddSuccess _ _ _ => 1 | _ => 0 end
  | None => map_sum f self'.(tests) = map_sum f self.(tests)
  end.
Proof.
  intros Hfresh Hattr. apply attr_bucket in Hattr.
  destruct (bucket_key c) as [k|]; [|by rewrite Hattr].
  destruct Hattr as (ob & self1 & w1 & ob' & Hget & -> & _ & He & Hf & Hn & _).
  exists ob, ob'. split; [|done]. simpl.
  apply tests_getitem_lookup in Hget as (Hk & Hother & Hold).
  rewrite (map_sum_insert f _ k ob ob' Hk).
  destruct (tests self !! k) as [ob0|] eqn:Hk0.
  - by destruct Hold as [-> ->].
  - destruct Hold as [now ->].
    assert (tests self1 = <[k := Test.__init__ now]> (tests self)) as ->.
    { apply map_eq. intros k'. destruct (decide (k' = k)) as [->|Hne].
      - by rewrite Hk, lookup_insert_eq.
      - rewrite lookup_insert_ne by done. by apply Hother. }
    rewrite map_sum_insert_new by done. rewrite Hfresh. lia.
Qed.

Definition successes (c : call) : Z :=
  match c with AddSuccess _ _ _ => 1 | _ => 0 end.

Definition failures_added (c : call) : Z :=
  match c with AddFailure _ _ _ _ => 1 | _ => 0 end.

Definition errors_added (c : call) : Z :=
  match c with AddError _ _ _ _ => 1 | _ => 0 end.

Lemma nb_success_map_sum (self : t) :
  nb_success self = map_sum Test.success self.(tests).
Proof. unfold nb_success. by rewrite get_tests_all. Qed.

Lemma nb_failures_map_sum (self : t) :
  nb_failures self
  = map_sum (fun ob => Z.of_nat (length ob.(Test.failures))) self.(tests).
Proof. unfold nb_failures. by rewrite get_tests_all. Qed.

Lemma nb_errors_map_sum (self : t) :
  nb_errors self
  = map_sum (fun ob => Z.of_nat (length ob.(Test.errors))) self.(tests).
Proof. unfold nb_errors. by rewrite get_tests_all. Qed.

Lemma attr_counters c self w self' w' :
  attr c self w = Ok (self', w') ->
  nb_success self' = nb_success self + successes c
  /\ nb_failures self' = nb_failures self + failures_added c
  /\ nb_errors self' = nb_errors self + errors_added c.
Proof.
  intros Hattr.
  rewrite !nb_success_map_sum, !nb_failures_map_sum, !nb_errors_map_sum.
  pose proof (attr_map_sum Test.success _ _ _ _ _
                (fun _ => eq_refl) Hattr) as Hs.
  pose proof (attr_map_sum (fun ob => Z.of_nat (length ob.(Test.failures)))
                _ _ _ _ _ (fun _ => eq_refl) Hattr) as Hf.
  pose proof (attr_map_sum (fun ob => Z.of_nat (length ob.(Test.errors)))
                _ _ _ _ _ (fun _ => eq_refl) Hattr) as He.
  destruct (bucket_key c) as [k|] eqn:Hkey.
  - destruct Hs as (ob1 & ob1' & -> & _ & _ & Hs).
    destruct Hf as (ob2 & ob2' & -> & _ & Hf & _).
    destruct He as (ob3 & ob3' & -> & He & _).
    rewrite Hs, Hf, He, !length_app.
    destruct c; try done; simpl; lia.
  - rewrite Hs, Hf, He. destruct c; try done; simpl; lia.
Qed.

(** After a sequence of calls that returned, [nb_success] has grown by
    the number of [addSuccess] calls, [nb_failures] by the number of
    [addFailure] calls and [nb_errors] by the number of [addError]
    calls, each whatever bucket the call fell in and whether or not the
    test had been started; no other call changes any of the three. *)
Theorem replay_counters (cs : list call) (self : t) (w : World) (self' : t)
    (w' : World) :
  replay cs self w = Ok (self', w') ->
  nb_success self' = nb_success self + sum (map successes cs)
  /\ nb_failures self' = nb_failures self + sum (map failures_added cs)
  /\ nb_errors self' = nb_errors self + sum (map errors_added cs).
Proof.
  intros Hreplay. apply replay_trace in Hreplay.
  induction Hreplay
    as [self|self w0 c self1 w1 cs self2 Hattr _ (IH1 & IH2 & IH3)].
  - simpl. rewrite sum_nil. lia.
  - apply attr_counters in Hattr as (H1 & H2 & H3).
    simpl. rewrite !sum_cons. lia.
Qed.

End ReplayFacts.

Section ReplayWitnesses.
Import TestResult.

(** The sink and the world a sequence of calls ends in. *)
Definition replayed (cs : list call) (self : t) (w : World) : t * World :=
  match replay cs self w with
  | Ok end_ => end_
  | Raise _ => (self, w)
  end.

(** One test that succeeds and then meets an error, a failure reported
    for a test that was never started, sockets closed more often than
    opened, and a hit. *)
Definition sample_calls : list call :=
  [StartTest "a" status_1_1 None; AddSuccess "a" status_1_1 None;
   AddError "a" "boom" status_1_1 None; StopTest "a" status_1_1 None;
   AddFailure "b" "late" status_1_1 None;
   SocketOpen status_1_1 None; SocketClose status_1_1 None;
   SocketClose status_1_1 None; SocketMessage status_1_1 10 None;
   AddHit (hit_data (Hit.Number 1) (Some None))]%string.

Lemma replay_buckets_witness :
  dom (replayed sample_calls __init__ seconds_clock).1.(tests)
  = dom __init__.(tests) ∪ list_to_set (omap bucket_key sample_calls)
  /\ nb_tests (replayed sample_calls __init__ seconds_clock).1
     = Z.of_nat (size (dom __init__.(tests)
                       ∪ list_to_set (omap bucket_key sample_calls))).
Proof.
  apply (replay_buckets sample_calls __init__ seconds_clock
           (replayed sample_calls __init__ seconds_clock).1
           (replayed sample_calls __init__ seconds_clock).2).
  vm_compute. reflexivity.
Defined.

Lemma replay_sockets_witness :
  (replayed sample_calls __init__ seconds_clock).1.(sockets)
  = __init__.(sockets) + sum (map socket_delta sample_calls)
  /\ (replayed sample_calls __init__ seconds_clock).1.(socket_data_received)
     = __init__.(socket_data_received) + sum (map bytes_of sample_calls).
Proof.
  apply (replay_sockets sample_calls __init__ seconds_clock
           (replayed sample_calls __init__ seconds_clock).1
           (replayed sample_calls __init__ seconds_clock).2).
  vm_compute. reflexivity.
Defined.

Lemma replay_hits_witness :
  exists new,
    (replayed sample_calls __init__ seconds_clock).1.(hits)
    = __init__.(hits) ++ new
    /\ Forall2 (fun data h => Hit.new data = Ok h)
               (omap hit_data_of sample_calls) new
    /\ nb_hits (replayed sample_calls __init__ seconds_clock).1
       = nb_hits __init__
         + Z.of_nat (length (omap hit_data_of sample_calls)).
Proof.
  apply (replay_hits sample_calls __init__ seconds_clock
           (replayed sample_calls __init__ seconds_clock).1
           (replayed sample_calls __init__ seconds_clock).2).
  vm_compute. reflexivity.
Defined.

Lemma replay_counters_witness :
  nb_success (replayed sample_calls __init__ seconds_clock).1
  = nb_success __init__ + sum (map successes sample_calls)
  /\ nb_failures (replayed sample_calls __init__ seconds_clock).1
     = nb_failures __init__ + sum (map failures_added sample_calls)
  /\ nb_errors (replayed sample_calls __init__ seconds_clock).1
     = nb_errors __init__ + sum (map errors_added sample_calls).
Proof.
  apply (replay_counters sample_calls __init__ seconds_clock
           (replayed sample_calls __init__ seconds_clock).1
           (replayed sample_calls __init__ seconds_clock).2).
  vm_compute. reflexivity.
Defined.

(** The bucket of [one_finished_test]. *)
Definition finished_bucket : Test.t :=
  {| Test.start := 0; Test.end_ := Some (2 * us_per_second);
     Test.name := Some "a"%string; Test.cycle := None;
     Test.current_cycle := Some 1;
     Test.failures := []; Test.errors := [];
     Test.success := 1; Test.user := None |}.

Lemma replay_bucket_grows_witness :
  exists ob',
    (replayed sample_calls one_finished_test seconds_clock).1.(tests)
      !! ("a"%string, Some 1, Some 1, @None Z) = Some ob'
    /\ ob'.(Test.start) = finished_bucket.(Test.start)
    /\ finished_bucket.(Test.errors) `prefix_of` ob'.(Test.errors)
    /\ finished_bucket.(Test.failures) `prefix_of` ob'.(Test.failures)
    /\ finished_bucket.(Test.success) <= ob'.(Test.success)
    /\ (Test.finished finished_bucket = true -> Test.finished ob' = true)
    /\ (forall e, Test.get_error finished_bucket = Some e ->
                  Test.get_error ob' = Some e)
    /\ (forall e, Test.get_failure finished_bucket = Some e ->
                  Test.get_failure ob' = Some e).
Proof.
  apply (replay_bucket_grows sample_calls one_finished_test seconds_clock
           (replayed sample_calls one_finished_test seconds_clock).1
           (replayed sample_calls one_finished_test seconds_clock).2).
  - vm_compute. reflexivity.
  - vm_compute. reflexivity.
Defined.

End ReplayWitnesses.

(** ** More of the plan and of the coordinator *)

Section PlanFacts.
Import Workload.

Fixpoint count_char (c : ascii) (s : string) : nat :=
  match s with
  | EmptyString => 0
  | String c' s' =>
      if Ascii.eqb c' c then Datatypes.S (count_char c s')
      else count_char c s'
  end.

Lemma length_split (sep : ascii) (s : string) :
  length (split sep s) = Datatypes.S (count_char sep s).
Proof.
  induction s as [|c s IH]; simpl; [done|].
  destruct (Ascii.eqb c sep); simpl; [by rewrite IH|].
  destruct (split sep s) as [|piece pieces]; simpl in *; [done|]. exact IH.
Qed.

Lemma length_int_list (s : string) (l : list Z) :
  int_list s = Ok l -> length l = Datatypes.S (count_char ":" s).
Proof.
  intros Hl. apply comprehension_Ok, Forall2_length in Hl.
  by rewrite <- Hl, length_split.
Qed.

(** A plan that [_compute] returns has one user tier per piece of the
    users spec and one cycle size per piece of the cycles spec, that is
    one more than the spec has colons: neither list is ever empty, the
    empty spec being one empty piece, which [int] refuses; and the agent
    count comes back as given. *)
Theorem compute_one_value_per_piece (args : Args) (total : Z)
    (cs us : list Z) (a : option Z) :
  _compute args = Ok (total, cs, us, a) ->
  length us = Datatypes.S (count_char ":" args.(users))
  /\ length cs = Datatypes.S (count_char ":" args.(cycles))
  /\ us <> [] /\ cs <> []
  /\ a = args.(agents).
Proof.
  unfold _compute.
  destruct (int_list args.(users)) as [us'|] eqn:Hu; simpl; [|done].
  destruct (int_list args.(cycles)) as [cs'|] eqn:Hc; simpl; [|done].
  intros [= _ <- <- <-].
  apply length_int_list in Hu, Hc.
  repeat split; try done; intros ->; done.
Qed.

Lemma compute_one_value_per_piece_witness :
  length [7; 0; -2] = Datatypes.S (count_char ":" "7:0:-2")
  /\ length [3] = Datatypes.S (count_char ":" "3")
  /\ [7; 0; -2] <> [] /\ [3] <> []
  /\ Some 4 = Some 4.
Proof.
  apply (compute_one_value_per_piece
           {| users := "7:0:-2"; cycles := "3"; agents := Some 4 |}
           60 [3] [7; 0; -2] (Some 4)).
  reflexivity.
Defined.

Lemma sum_positive (l : list Z) :
  Forall (fun x => 1 <= x) l -> l <> [] -> 1 <= sum l.
Proof.
  induction 1 as [|x l Hx Hl IH]; [done|]. intros _. rewrite sum_cons.
  destruct l as [|y l]; [rewrite sum_nil; lia|].
  assert (1 <= sum (y :: l)) by (by apply IH). lia.
Qed.

Lemma expected_total_positive (us cs : list Z) (a : Z) :
  Forall (fun u => 1 <= u) us -> Forall (fun c => 1 <= c) cs ->
  us <> [] -> cs <> [] -> 1 <= a ->
  1 <= expected_total us cs (Some a).
Proof.
  intros Hus Hcs Hu Hc Ha. unfold expected_total. simpl.
  pose proof (sum_positive cs Hcs Hc) as Hsum.
  assert (1 <= sum (map (fun u => u * sum cs) us)); [|nia].
  apply sum_positive; [|by destruct us].
  apply Forall_map. eapply Forall_impl; [exact Hus|]. simpl. intros; nia.
Qed.

End PlanFacts.

Section MoreCoordinatorFacts.
Import Coordinator.

Context {data : Type} (json_loads : string -> result data).

Lemma start_past (total : Z) (msgs : list msg) (st : state data) :
  Forall (result_event json_loads) msgs ->
  st.(stopped) = false ->
  total <= st.(received) ->
  exists st' ds,
    start json_loads total msgs st = Ok st'
    /\ st'.(received) = st.(received) + Z.of_nat (length msgs)
    /\ st'.(stopped) = false
    /\ st'.(echoed) = st.(echoed) ++ ds
    /\ Forall2 (carries json_loads) msgs ds.
Proof.
  intros Hmsgs. revert st.
  induction Hmsgs as [|m msgs [d Hm] _ IH]; intros st Hrun Hle.
  - exists st, []. simpl. rewrite app_nil_r.
    repeat split; try done; try lia.
  - simpl. rewrite Hrun, (recv_result_counts json_loads total m d st Hm).
    simpl. destruct (received st + 1 =? total) eqn:Hlast;
      [apply Z.eqb_eq in Hlast; lia|].
    destruct (IH {| received := received st + 1; stopped := stopped st;
                    echoed := echoed st ++ [d] |})
      as (st' & ds & Hst & Hrec & Hstop & Hecho & Hds); [done|simpl; lia|].
    simpl in *. exists st', (d :: ds). split; [exact Hst|].
    split; [lia|]. split; [done|].
    split; [by rewrite Hecho, <- app_assoc|]. by constructor.
Qed.

(** With an expected total of 0 or less (a users spec "0", or no
    agents at all) the loop never stops: the counter starts at 0 and is
    compared after it has been incremented, so whatever messages arrive
    are all handed to [echo] and counted, and the loop is still
    running. *)
Theorem receive_loop_never_stops (N : Z) (msgs : list msg) :
  N <= 0 ->
  Forall (result_event json_loads) msgs ->
  exists st,
    start json_loads N msgs init = Ok st
    /\ st.(stopped) = false
    /\ st.(received) = Z.of_nat (length msgs)
    /\ Forall2 (carries json_loads) msgs st.(echoed).
Proof.
  intros HN Hmsgs.
  destruct (start_past N msgs init Hmsgs)
    as (st & ds & Hst & Hrec & Hstop & Hecho & Hds); [done|simpl; lia|].
  simpl in *. exists st. rewrite Hecho. done.
Qed.

(** A distributed run over positive users and cycles and [a >= 1]
    agents stops receiving exactly when [a] times the local total of
    result events have arrived, having counted the events up to then
    and none after. *)
Theorem distributed_run_stops_at_expected_total (args : Workload.Args)
    (us cs : list Z) (a : Z) (msgs : list msg) :
  Workload.int_list args.(Workload.users) = Ok us ->
  Workload.int_list args.(Workload.cycles) = Ok cs ->
  args.(Workload.agents) = Some a ->
  1 <= a ->
  Forall (fun u => 1 <= u) us ->
  Forall (fun c => 1 <= c) cs ->
  Forall (result_event json_loads) msgs ->
  exists st,
    distributed_run json_loads args msgs = Ok st
    /\ st.(received)
       = Z.min (a * sum (map (fun u => u * sum cs) us))
               (Z.of_nat (length msgs))
    /\ (st.(stopped) = true
        <-> a * sum (map (fun u => u * sum cs) us)
            <= Z.of_nat (length msgs)).
Proof.
  intros Hu Hc Ha Ha1 Hus Hcs Hmsgs. unfold distributed_run.
  rewrite (compute_accepts args us cs Hu Hc), Ha. simpl.
  assert (1 <= Workload.expected_total us cs (Some a)) as Hpos.
  { apply expected_total_positive; try done.
    - apply length_int_list in Hu. by destruct us.
    - apply length_int_list in Hc. by destruct cs. }
  unfold Workload.expected_total in *. simpl in *.
  destruct (start_from json_loads (a * sum (map (fun u => u * sum cs) us))
                       msgs init Hmsgs)
    as (st & ds & Hst & Hrec & Hstop & _); [done|simpl; lia|].
  simpl in *. exists st. split; [exact Hst|]. split; [exact Hrec|]. exact Hstop.
Qed.

End MoreCoordinatorFacts.

Lemma receive_loop_never_stops_witness :
  exists st,
    Coordinator.start Ok 0 [["a"]; ["b"]]%string Coordinator.init = Ok st
    /\ st.(Coordinator.stopped) = false
    /\ st.(Coordinator.received) = Z.of_nat (length [["a"]; ["b"]]%string)
    /\ Forall2 (carries Ok) [["a"]; ["b"]]%string st.(Coordinator.echoed).
Proof.
  apply (receive_loop_never_stops Ok 0 [["a"]; ["b"]]%string).
  - lia.
  - repeat constructor; eexists; eexists _, _; split; reflexivity.
Defined.

Lemma distributed_run_stops_at_expected_total_witness :
  exists st,
    Coordinator.distributed_run Ok
      {| Workload.users := "1"; Workload.cycles := "1";
         Workload.agents := Some 2 |}
      [["a"]; ["b"]; ["c"]]%string
    = Ok st
    /\ st.(Coordinator.received)
       = Z.min (2 * sum (map (fun u => u * sum [1]) [1]))
               (Z.of_nat (length [["a"]; ["b"]; ["c"]]%string))
    /\ (st.(Coordinator.stopped) = true
        <-> 2 * sum (map (fun u => u * sum [1]) [1])
            <= Z.of_nat (length [["a"]; ["b"]; ["c"]]%string)).
Proof.
  apply (distributed_run_stops_at_expected_total Ok
           {| Workload.users := "1"; Workload.cycles := "1";
              Workload.agents := Some 2 |} [1] [1] 2
           [["a"]; ["b"]; ["c"]]%string).
  - reflexivity.
  - reflexivity.
  - reflexivity.
  - lia.
  - repeat constructor; lia.
  - repeat constructor; lia.
  - repeat constructor; eexists; eexists _, _; split; reflexivity.
Defined.

(** ** A local run into the sink *)

Section LocalRunFacts.
Import TestResult.

Context (test : Scheduler.TestCase -> t * World -> t * World).
Context (waits : Z -> Z -> Z -> Z -> nat).

(** A local run over positive users and cycles, with a scenario that
    reports one outcome per invocation into the sink it is given: when
    the run returns, [success + len(failures) + len(errors)] summed over
    all buckets has grown by exactly the total [_compute] returned. *)
Theorem local_run_outcomes_expected_total (args : Workload.Args)
    (us cs : list Z) (ob : Scheduler.TestCase) (self : t) (w : World) :
  reports_one_outcome test ->
  Workload.int_list args.(Workload.users) = Ok us ->
  Workload.int_list args.(Workload.cycles) = Ok cs ->
  args.(Workload.agents) = None ->
  Forall (fun u => 1 <= u) us ->
  Forall (fun c => 1 <= c) cs ->
  exists total ob' self' w' evs,
    Workload._compute args = Ok (total, cs, us, None)
    /\ Scheduler.run (t * World) test waits args ob (self, w)
       = Ok (Some (ob', (self', w'), evs))
    /\ total_outcomes self' = total_outcomes self + total.
Proof.
  intros Hone Hu Hc Ha Hus Hcs.
  pose proof (compute_accepts args us cs Hu Hc) as Hcompute.
  rewrite Ha in Hcompute.
  destruct (tiers_returns test waits us cs ob (self, w))
    as (ob' & [self' w'] & evs & Ht & Hs & Hn).
  eexists _, ob', self', w', evs. split; [exact Hcompute|]. split.
  - unfold Scheduler.run. rewrite Hcompute. simpl. by rewrite Ht.
  - apply (f_equal (fun s => total_outcomes s.1)) in Hs. simpl in Hs.
    rewrite Hs, (fold_outcomes test evs (self, w) Hone). simpl. f_equal.
    rewrite Hn, (sum_tiers_positive us cs Hus Hcs).
    unfold Workload.expected_total. simpl default. lia.
Qed.

(** A plain number of days beyond what a [timedelta] can hold makes
    [add_hit] raise an [OverflowError]: no hit is stored and no observer
    is pushed. *)
Theorem add_hit_overflow (data : Hit.kwargs) (n : Z) (self : t) (w : World) :
  is_Some data.(Hit.kw_url) -> is_Some data.(Hit.kw_method) ->
  is_Some data.(Hit.kw_status) -> is_Some data.(Hit.kw_started) ->
  is_Some data.(Hit.kw_loads_status) ->
  data.(Hit.kw_elapsed) = Some (Hit.Number n) ->
  n < -999999999 \/ 999999999 < n ->
  __getattribute__ (AddHit data) self w = Raise OverflowError.
Proof.
  intros [url Hurl] [method Hmethod] [status Hstatus] [started Hstarted]
         [ls Hls] Helapsed Hrange.
  unfold __getattribute__, attr, add_hit, Hit.new, Hit.__init__,
    timedelta_of_days.
  rewrite Hurl, Hmethod, Hstatus, Hstarted, Helapsed, Hls.
  replace ((-999999999 <=? n) && (n <=? 999999999)) with false; [done|].
  symmetry. apply andb_false_iff. rewrite Z.leb_gt, Z.leb_gt. lia.
Qed.

End LocalRunFacts.

Lemma local_run_outcomes_expected_total_witness :
  exists total ob' self' w' evs,
    Workload._compute {| Workload.users := "2:1"; Workload.cycles := "1:2";
                         Workload.agents := None |}
    = Ok (total, [1; 2], [2; 1], None)
    /\ Scheduler.run (TestResult.t * TestResult.World) passing_scenario
         first_waits
         {| Workload.users := "2:1"; Workload.cycles := "1:2";
            Workload.agents := None |}
         fresh_test (TestResult.__init__, seconds_clock)
       = Ok (Some (ob', (self', w'), evs))
    /\ total_outcomes self' = total_outcomes TestResult.__init__ + total.
Proof.
  apply (local_run_outcomes_expected_total passing_scenario first_waits
           {| Workload.users := "2:1"; Workload.cycles := "1:2";
              Workload.agents := None |} [2; 1] [1; 2]).
  - intros ob self w.
    exists "test_it"%string,
           (None, None, ob.(Scheduler.current_cycle),
            ob.(Scheduler.current_user)),
           None, (TestResult.AddSuccess "test_it"
                    (None, None, ob.(Scheduler.current_cycle),
                     ob.(Scheduler.current_user)) None).
    split; [by left|]. unfold passing_scenario. simpl fst. simpl snd.
    match goal with
    | |- TestResult.replay ?cs self w = _ =>
        destruct (replay_returns cs self w) as [r ->]
    end.
    + repeat constructor; discriminate.
    + reflexivity.
  - reflexivity.
  - reflexivity.
  - reflexivity.
  - repeat constructor; lia.
  - repeat constructor; lia.
Defined.

Lemma add_hit_overflow_witness :
  TestResult.__getattribute__
    (TestResult.AddHit (hit_data (Hit.Number 1000000000) (Some None)))
    TestResult.__init__ seconds_clock
  = Raise OverflowError.
Proof.
  apply (add_hit_overflow (hit_data (Hit.Number 1000000000) (Some None))
                          1000000000).
  - by eexists.
  - by eexists.
  - by eexists.
  - by eexists.
  - by eexists.
  - reflexivity.
  - lia.
Defined.
